(** * GameLib.Audio: the mixer, its channels and its sources

    A shallow embedding of [trunk/Mixer.cs] (namespace [GameLib.Audio]):
    the [AudioFormat] struct, the [AudioSource] base class, the [Channel]
    class and the static [Mixer] class, followed by the properties that the
    specification states about them.

    Conventions.
    - C# [int] is a [Z] kept in the signed 32-bit range by [wrap32]; [uint]
      is a [Z] reduced by [wrapu32]; [byte] by [to_byte].  Arithmetic is
      unchecked (wraps), integer division truncates and raises
      [DivideByZeroException] on a zero divisor.
    - A method that can throw returns a [result]; a method that mutates
      returns the new state next to it, so that what was already written
      when the exception left the method stays written.
    - Objects that are shared by reference (audio sources) live in a store
      indexed by a reference; channels are held by value in the channel
      array, whose slots can be [null].
    - [Timing.Ticks] is an input of every operation that reads the clock.
    - What the C# code reaches through P/Invoke ([GLMixer]), through the
      abstract members of [AudioSource], or through user delegates is a
      member of one of the interfaces below. *)

From Stdlib Require Import ZArith String Bool Lia.
From Stdlib Require Import Floats.SpecFloat.
From stdpp Require Import base list gmap.

Open Scope Z_scope.

(** ** Machine integers *)

Definition wrap32 (z : Z) : Z := (z + 2147483648) mod 4294967296 - 2147483648.
Definition wrapu32 (z : Z) : Z := z mod 4294967296.
Definition to_byte (z : Z) : Z := z mod 256.

Definition int_MaxValue : Z := 2147483647.
Definition int_MinValue : Z := -2147483648.

(** ** Exceptions and results *)

Inductive exn : Type :=
| ArgumentException (msg : string)
| ArgumentOutOfRangeException (param : string)
| ArgumentNullException
| InvalidOperationException (msg : string)
| NotImplementedException (msg : string)
| NotSupportedException (msg : string)
| NullReferenceException
| IndexOutOfRangeException
| DivideByZeroException
| OverflowException
| ExternalException (code : Z).

Inductive result (A : Type) : Type :=
| Ok (a : A)
| Raise (e : exn).
Arguments Ok {A} a.
Arguments Raise {A} e.

(** [a / b] on [int]. *)
Definition int_div (a b : Z) : result Z :=
  if b =? 0 then Raise DivideByZeroException
  else if (a =? int_MinValue) && (b =? -1) then Raise OverflowException
  else Ok (Z.quot a b).

(** ** Enumerations *)

Inductive AudioStatus := Stopped | Playing | Paused.
Inductive Fade := FadeNone | FadeIn | FadeOut.
Inductive PlayPolicy := Fail | Oldest | Priority | OldestPriority.

Definition Fade_eqb (a b : Fade) : bool :=
  match a, b with
  | FadeNone, FadeNone | FadeIn, FadeIn | FadeOut, FadeOut => true
  | _, _ => false
  end.

(** ** Constants of class Mixer *)

Definition Infinite : Z := -1.
Definition FreeChannel : Z := -1.
Definition MaxVolume : Z := 256.

(** ** AudioFormat *)

Record AudioFormat := mkAudioFormat {
  Frequency : Z;   (* uint *)
  Format : Z;      (* SampleFormat : ushort *)
  Channels : Z     (* byte *)
}.

(** [ValueType.Equals] on the struct: field by field. *)
Definition AudioFormat_Equals (a b : AudioFormat) : bool :=
  (Frequency a =? Frequency b) && (Format a =? Format b) && (Channels a =? Channels b).

(** The native conversion descriptor [GLMixer.AudioCVT], with the fields the
    C# code reads and writes. *)
Record AudioCVT := mkAudioCVT {
  srcRate : Z; srcFormat : Z; srcChans : Z;
  destRate : Z; destFormat : Z; destChans : Z;
  len : Z; lenCvt : Z; lenMul : Z; lenDiv : Z
}.

Definition AudioCVT_new : AudioCVT := mkAudioCVT 0 0 0 0 0 0 0 0 0 0.

Definition set_len_ratio (mul div : Z) (cvt : AudioCVT) : AudioCVT :=
  mkAudioCVT (srcRate cvt) (srcFormat cvt) (srcChans cvt)
             (destRate cvt) (destFormat cvt) (destChans cvt)
             (len cvt) (lenCvt cvt) mul div.

(** ** What is outside the C# source *)

(** Constants of the interop enumeration [GLMixer.Format] that
    [SampleFormat] copies. *)
Class GLFormat := {
  BitsPart : Z;
  MixerFormat : Z
}.

(** The entry points of the native mixer library that the modelled methods
    call, and [GLMixer.Check], which turns a return code into an exception. *)
Class GLMixer := {
  GLMixer_Check : Z -> option exn;
  GLMixer_SetupCVT : AudioCVT -> Z * AudioCVT;
  (* Convert(ref cvt), with the bytes [cvt.buf] points to *)
  GLMixer_Convert : AudioCVT -> list Z -> Z * AudioCVT * list Z;
  (* ConvertMix(dest, src, samples, srcFormat, srcVolume) *)
  GLMixer_ConvertMix : list Z -> list Z -> Z -> Z -> Z -> Z * list Z;
  (* ConvertAcc(dest, src, samples, destFormat) *)
  GLMixer_ConvertAcc : list Z -> list Z -> Z -> Z -> Z * list Z;
  (* Mix(dest, src, samples, srcVolume) *)
  GLMixer_Mix : list Z -> list Z -> Z -> Z -> Z * list Z;
  (* Copy(dest, src, samples) *)
  GLMixer_Copy : list Z -> list Z -> Z -> Z * list Z;
  (* DivideAccumulator(divisor), on the buffer being filled *)
  GLMixer_DivideAccumulator : list Z -> Z -> Z * list Z
}.

Section Formats.
Context `{GLFormat} `{GLMixer}.

Definition SampleSize (f : AudioFormat) : Z :=
  to_byte (Z.shiftr (Z.land (Format f) BitsPart) 3).
Definition FrameSize (f : AudioFormat) : Z :=
  to_byte (SampleSize f * Channels f).
Definition ByteRate (f : AudioFormat) : Z :=
  wrapu32 (FrameSize f * Frequency f).

(** [Mixer.SetupCVT]. *)
Definition SetupCVT (srcF destF : AudioFormat) : result AudioCVT :=
  let cvt := AudioCVT_new in
  let cvt := if AudioFormat_Equals srcF destF then set_len_ratio 1 1 cvt else cvt in
  if (Format srcF =? MixerFormat) && (Format destF =? MixerFormat)
  then Raise (NotImplementedException "Can't convert between two different mixer formats")
  else if Format srcF =? MixerFormat then Ok (set_len_ratio (SampleSize destF) 4 cvt)
  else if Format destF =? MixerFormat then Ok (set_len_ratio 4 (SampleSize destF) cvt)
  else
    let cvt := mkAudioCVT (wrap32 (Frequency srcF)) (Format srcF) (Channels srcF)
                          (wrap32 (Frequency destF)) (Format destF) (Channels destF)
                          (len cvt) (lenCvt cvt) (lenMul cvt) (lenDiv cvt) in
    let '(code, cvt) := GLMixer_SetupCVT cvt in
    match GLMixer_Check code with
    | Some e => Raise e
    | None => Ok cvt
    end.

End Formats.

(** Single-precision arithmetic, as far as the mixer uses it. *)
Class Single := {
  float : Type;
  f_one : float;                     (* 1f *)
  f_lt0 : float -> bool;             (* x < 0f *)
  f_eq1 : float -> bool;             (* x == 1f *)
  f_mul : float -> float -> float;   (* x * y *)
  f_scale : Z -> float -> Z          (* (uint)(n * x) for a uint n *)
}.

(** The private state of a concrete [AudioSource] subclass (stream cursor,
    decoder handle, sample data). *)
Class SourceState := { impl : Type }.

(** User delegates: a [MixFilter] rewrites a sample buffer; a
    [ChannelFinishedHandler] is only observed, through the calls it
    receives. *)
Class Delegates := {
  Filter : Type;
  run_filter : Filter -> list Z -> Z -> AudioFormat -> list Z
}.
Definition Handler := nat.

Inductive Event :=
| CallFinished (h : Handler) (chan : Z)
| CallChannelFinished (h : Handler) (chan : Z).

(** ** AudioSource *)

Section Sources.
Context `{Single} `{SourceState}.

Record AudioSource := mkAudioSource {
  CanRewind : bool;
  CanSeek : bool;
  src_format : AudioFormat;
  src_rate : float;
  src_volume : Z;
  src_length : Z;
  src_priority : Z;
  playing : Z;
  src_state : impl
}.

Definition set_src_rate v (s : AudioSource) : AudioSource :=
  mkAudioSource (CanRewind s) (CanSeek s) (src_format s) v (src_volume s)
    (src_length s) (src_priority s) (playing s) (src_state s).
Definition set_src_volume v (s : AudioSource) : AudioSource :=
  mkAudioSource (CanRewind s) (CanSeek s) (src_format s) (src_rate s) v
    (src_length s) (src_priority s) (playing s) (src_state s).
Definition set_src_priority v (s : AudioSource) : AudioSource :=
  mkAudioSource (CanRewind s) (CanSeek s) (src_format s) (src_rate s)
    (src_volume s) (src_length s) v (playing s) (src_state s).
Definition set_playing v (s : AudioSource) : AudioSource :=
  mkAudioSource (CanRewind s) (CanSeek s) (src_format s) (src_rate s)
    (src_volume s) (src_length s) (src_priority s) v (src_state s).
Definition set_src_state v (s : AudioSource) : AudioSource :=
  mkAudioSource (CanRewind s) (CanSeek s) (src_format s) (src_rate s)
    (src_volume s) (src_length s) (src_priority s) (playing s) v.

(** [Mixer.CheckRate], [Mixer.CheckVolume], [Mixer.CheckChannel] (the
    initialisation test of the latter is made by its caller here). *)
Definition CheckRate (rate : float) : option exn :=
  if f_lt0 rate then Some (ArgumentOutOfRangeException "PlaybackRate") else None.
Definition CheckVolume (volume : Z) : option exn :=
  if (volume <? 0) || (MaxVolume <? volume)
  then Some (ArgumentOutOfRangeException "value") else None.

(** [AudioSource.Volume] and [AudioSource.PlaybackRate], the setters. *)
Definition AudioSource_set_Volume (value : Z) (s : AudioSource)
  : AudioSource * result unit :=
  match CheckVolume value with
  | Some e => (s, Raise e)
  | None => (set_src_volume value s, Ok tt)
  end.

Definition AudioSource_set_PlaybackRate (value : float) (s : AudioSource)
  : AudioSource * result unit :=
  match CheckRate (src_rate s) with
  | Some e => (s, Raise e)
  | None => (set_src_rate value s, Ok tt)
  end.

Definition AudioSource_set_Priority (value : Z) (s : AudioSource) : AudioSource :=
  set_src_priority value s.

End Sources.

(** The abstract members of [AudioSource].  Each gets the source object and
    returns the new subclass state next to what the call returns. *)
Class SourceVirtuals `{Single} `{SourceState} := {
  Position_get : AudioSource -> Z;
  Position_set : AudioSource -> Z -> impl * option exn;
  Rewind : AudioSource -> impl * option exn;
  ReadBytes : AudioSource -> list Z -> Z -> impl * result (Z * list Z);
  ReadFrames : AudioSource -> list Z -> Z -> Z -> impl * result (Z * list Z)
}.

(** ** Channel *)

Definition SourceRef := nat.

Section Channels.
Context `{GLFormat} `{GLMixer} `{Single} `{SourceState} `{Delegates}.

Record Channel := mkChannel {
  number : Z;
  Filters : list Filter;
  Finished : list Handler;
  source : option SourceRef;
  convBuf : option (list Z);
  rate : float;
  startTime : Z;
  fadeStart : Z;
  fadeTime : Z;
  volume : Z;
  fadeVolume : Z;
  timeout : Z;
  position : Z;
  loops : Z;
  priority : Z;
  sdMul : Z;
  sdDiv : Z;
  fade : Fade;
  paused : bool;
  convert : bool
}.

Definition set_Filters v (c : Channel) : Channel :=
  mkChannel (number c) v (Finished c) (source c) (convBuf c) (rate c)
    (startTime c) (fadeStart c) (fadeTime c) (volume c) (fadeVolume c)
    (timeout c) (position c) (loops c) (priority c) (sdMul c) (sdDiv c)
    (fade c) (paused c) (convert c).
Definition set_Finished v (c : Channel) : Channel :=
  mkChannel (number c) (Filters c) v (source c) (convBuf c) (rate c)
    (startTime c) (fadeStart c) (fadeTime c) (volume c) (fadeVolume c)
    (timeout c) (position c) (loops c) (priority c) (sdMul c) (sdDiv c)
    (fade c) (paused c) (convert c).
Definition set_source v (c : Channel) : Channel :=
  mkChannel (number c) (Filters c) (Finished c) v (convBuf c) (rate c)
    (startTime c) (fadeStart c) (fadeTime c) (volume c) (fadeVolume c)
    (timeout c) (position c) (loops c) (priority c) (sdMul c) (sdDiv c)
    (fade c) (paused c) (convert c).
Definition set_convBuf v (c : Channel) : Channel :=
  mkChannel (number c) (Filters c) (Finished c) (source c) v (rate c)
    (startTime c) (fadeStart c) (fadeTime c) (volume c) (fadeVolume c)
    (timeout c) (position c) (loops c) (priority c) (sdMul c) (sdDiv c)
    (fade c) (paused c) (convert c).
Definition set_rate v (c : Channel) : Channel :=
  mkChannel (number c) (Filters c) (Finished c) (source c) (convBuf c) v
    (startTime c) (fadeStart c) (fadeTime c) (volume c) (fadeVolume c)
    (timeout c) (position c) (loops c) (priority c) (sdMul c) (sdDiv c)
    (fade c) (paused c) (convert c).
Definition set_startTime v (c : Channel) : Channel :=
  mkChannel (number c) (Filters c) (Finished c) (source c) (convBuf c)
    (rate c) v (fadeStart c) (fadeTime c) (volume c) (fadeVolume c)
    (timeout c) (position c) (loops c) (priority c) (sdMul c) (sdDiv c)
    (fade c) (paused c) (convert c).
Definition set_fadeStart v (c : Channel) : Channel :=
  mkChannel (number c) (Filters c) (Finished c) (source c) (convBuf c)
    (rate c) (startTime c) v (fadeTime c) (volume c) (fadeVolume c)
    (timeout c) (position c) (loops c) (priority c) (sdMul c) (sdDiv c)
    (fade c) (paused c) (convert c).
Definition set_fadeTime v (c : Channel) : Channel :=
  mkChannel (number c) (Filters c) (Finished c) (source c) (convBuf c)
    (rate c) (startTime c) (fadeStart c) v (volume c) (fadeVolume c)
    (timeout c) (position c) (loops c) (priority c) (sdMul c) (sdDiv c)
    (fade c) (paused c) (convert c).
Definition set_volume v (c : Channel) : Channel :=
  mkChannel (number c) (Filters c) (Finished c) (source c) (convBuf c)
    (rate c) (startTime c) (fadeStart c) (fadeTime c) v (fadeVolume c)
    (timeout c) (position c) (loops c) (priority c) (sdMul c) (sdDiv c)
    (fade c) (paused c) (convert c).
Definition set_fadeVolume v (c : Channel) : Channel :=
  mkChannel (number c) (Filters c) (Finished c) (source c) (convBuf c)
    (rate c) (startTime c) (fadeStart c) (fadeTime c) (volume c) v (timeout c)
    (position c) (loops c) (priority c) (sdMul c) (sdDiv c) (fade c)
    (paused c) (convert c).
Definition set_timeout v (c : Channel) : Channel :=
  mkChannel (number c) (Filters c) (Finished c) (source c) (convBuf c)
    (rate c) (startTime c) (fadeStart c) (fadeTime c) (volume c)
    (fadeVolume c) v (position c) (loops c) (priority c) (sdMul c) (sdDiv c)
    (fade c) (paused c) (convert c).
Definition set_position v (c : Channel) : Channel :=
  mkChannel (number c) (Filters c) (Finished c) (source c) (convBuf c)
    (rate c) (startTime c) (fadeStart c) (fadeTime c) (volume c)
    (fadeVolume c) (timeout c) v (loops c) (priority c) (sdMul c) (sdDiv c)
    (fade c) (paused c) (convert c).
Definition set_loops v (c : Channel) : Channel :=
  mkChannel (number c) (Filters c) (Finished c) (source c) (convBuf c)
    (rate c) (startTime c) (fadeStart c) (fadeTime c) (volume c)
    (fadeVolume c) (timeout c) (position c) v (priority c) (sdMul c) (sdDiv c)
    (fade c) (paused c) (convert c).
Definition set_priority v (c : Channel) : Channel :=
  mkChannel (number c) (Filters c) (Finished c) (source c) (convBuf c)
    (rate c) (startTime c) (fadeStart c) (fadeTime c) (volume c)
    (fadeVolume c) (timeout c) (position c) (loops c) v (sdMul c) (sdDiv c)
    (fade c) (paused c) (convert c).
Definition set_sdMul v (c : Channel) : Channel :=
  mkChannel (number c) (Filters c) (Finished c) (source c) (convBuf c)
    (rate c) (startTime c) (fadeStart c) (fadeTime c) (volume c)
    (fadeVolume c) (timeout c) (position c) (loops c) (priority c) v (sdDiv c)
    (fade c) (paused c) (convert c).
Definition set_sdDiv v (c : Channel) : Channel :=
  mkChannel (number c) (Filters c) (Finished c) (source c) (convBuf c)
    (rate c) (startTime c) (fadeStart c) (fadeTime c) (volume c)
    (fadeVolume c) (timeout c) (position c) (loops c) (priority c) (sdMul c) v
    (fade c) (paused c) (convert c).
Definition set_fade v (c : Channel) : Channel :=
  mkChannel (number c) (Filters c) (Finished c) (source c) (convBuf c)
    (rate c) (startTime c) (fadeStart c) (fadeTime c) (volume c)
    (fadeVolume c) (timeout c) (position c) (loops c) (priority c) (sdMul c)
    (sdDiv c) v (paused c) (convert c).
Definition set_paused v (c : Channel) : Channel :=
  mkChannel (number c) (Filters c) (Finished c) (source c) (convBuf c)
    (rate c) (startTime c) (fadeStart c) (fadeTime c) (volume c)
    (fadeVolume c) (timeout c) (position c) (loops c) (priority c) (sdMul c)
    (sdDiv c) (fade c) v (convert c).
Definition set_convert v (c : Channel) : Channel :=
  mkChannel (number c) (Filters c) (Finished c) (source c) (convBuf c)
    (rate c) (startTime c) (fadeStart c) (fadeTime c) (volume c)
    (fadeVolume c) (timeout c) (position c) (loops c) (priority c) (sdMul c)
    (sdDiv c) (fade c) (paused c) v.

(** The static state of class [Mixer] that a channel reads or writes, the
    store of source objects and the log of handler calls. *)
Record World := mkWorld {
  init : bool;
  format : AudioFormat;
  ChannelFinished : list Handler;
  sources : gmap SourceRef AudioSource;
  fired : list Event
}.

Definition set_sources v (w : World) : World :=
  mkWorld (init w) (format w) (ChannelFinished w) v (fired w).
Definition set_fired v (w : World) : World :=
  mkWorld (init w) (format w) (ChannelFinished w) (sources w) v.

(** [internal Channel(int channel)]. *)
Definition Channel_new (channel : Z) : Channel :=
  mkChannel channel [] [] None None f_one 0 0 0 MaxVolume 0 0 0 0 0 0 0
            FadeNone false false.

Definition Status (c : Channel) : AudioStatus :=
  match source c with
  | None => Stopped
  | Some _ => if paused c then Paused else Playing
  end.

Definition Age (now : Z) (c : Channel) : Z :=
  match source c with
  | None => 0
  | Some _ => wrapu32 (now - startTime c)
  end.

Definition EffectiveVolume (c : Channel) (s : AudioSource) : Z :=
  let v := src_volume s in
  if v =? MaxVolume then volume c else Z.shiftr (wrap32 (volume c * v)) 8.

Definition EffectiveRate (c : Channel) (s : AudioSource) : float :=
  f_mul (src_rate s) (rate c).

Definition Channel_set_Volume (value : Z) (c : Channel) : Channel * result unit :=
  match CheckVolume value with
  | Some e => (c, Raise e)
  | None => (set_volume value c, Ok tt)
  end.

Definition Channel_set_PlaybackRate (value : float) (c : Channel)
  : Channel * result unit :=
  match CheckRate (rate c) with
  | Some e => (c, Raise e)
  | None => (set_rate value c, Ok tt)
  end.

Definition Channel_set_Position (value : Z) (c : Channel) : Channel :=
  set_position value c.

Definition Pause (c : Channel) : Channel := set_paused true c.
Definition Resume (c : Channel) : Channel := set_paused false c.

(** The calls made when a channel finishes: its own handlers, then
    [Mixer.OnChannelFinished]. *)
Definition finished_calls (c : Channel) (w : World) : list Event :=
  map (fun h => CallFinished h (number c)) (Finished c)
  ++ map (fun h => CallChannelFinished h (number c)) (ChannelFinished w).

Definition StopPlaying (c : Channel) (w : World) : Channel * World :=
  match source c with
  | None => (c, w)
  | Some _ => (set_source None c, set_fired (fired w ++ finished_calls c w) w)
  end.

Definition Stop (c : Channel) (w : World) : Channel * World := StopPlaying c w.

Definition Channel_FadeOut (now : Z) (fadeMs : Z) (c : Channel) (w : World)
  : Channel * result unit :=
  match source c with
  | None => (c, Ok tt)
  | Some r =>
    let c := set_fade FadeOut c in
    let c := set_fadeTime fadeMs c in
    let c := set_fadeStart now c in
    match sources w !! r with
    | None => (c, Raise NullReferenceException)
    | Some s => (set_fadeVolume (EffectiveVolume c s) c, Ok tt)
    end
  end.

Definition msg_no_rewind : string := "Can't play loop sources that can't be rewound".
Definition msg_unseekable : string :=
  "Can't play unseekable streams more than once at a time".
Definition msg_not_init : string := "Mixer has not been initialized.".

(** [Channel.StartPlaying]. *)
Definition Channel_StartPlaying (now : Z) (r : SourceRef) (loops : Z) (fade : Fade)
    (fadeMs : Z) (timeoutMs : Z) (c : Channel) (w : World)
  : Channel * World * result unit :=
  let '(c, w) := StopPlaying c w in
  match sources w !! r with
  | None => (c, w, Raise ArgumentNullException)
  | Some s =>
    if negb (CanRewind s) && negb (loops =? 0)
    then (c, w, Raise (ArgumentException msg_no_rewind))
    else if negb (CanSeek s) && (0 <? playing s)
    then (c, w, Raise (ArgumentException msg_unseekable))
    else
      let c := set_source (Some r) c in
      let c := set_loops loops c in
      let c := set_fade fade c in
      let c := set_timeout timeoutMs c in
      let c := set_priority (src_priority s) c in
      let c := set_position 0 c in
      let c := set_paused false c in
      let c := set_startTime now c in
      let s := set_playing (wrap32 (playing s + 1)) s in
      let w := set_sources (<[r := s]> (sources w)) w in
      if negb (init w)
      then (c, w, Raise (InvalidOperationException msg_not_init))
      else
        let c := set_convert (negb (AudioFormat_Equals (src_format s) (format w))) c in
        let bound :=
          if convert c then
            match SetupCVT (src_format s) (format w) with
            | Raise e => Raise e
            | Ok cvt => Ok (set_sdDiv (lenDiv cvt) (set_sdMul (lenMul cvt) c))
            end
          else Ok (set_convBuf None c) in
        match bound with
        | Raise e => (c, w, Raise e)
        | Ok c =>
          if Fade_eqb fade FadeNone then (c, w, Ok tt)
          else
            let c := set_fadeTime fadeMs c in
            let c := set_fadeVolume
                       (if Fade_eqb fade FadeIn then 0 else EffectiveVolume c s) c in
            let c := set_fadeStart now c in
            (c, w, Ok tt)
        end
  end.

End Channels.

(** ** Arrays of the runtime *)

Definition msg_src_short : string := "Source array was not long enough.".
Definition msg_dst_short : string := "Destination array was not long enough.".

(** [Array.Copy(source, sourceIndex, dest, destIndex, length)]: the new
    contents of [dest]. *)
Definition Array_Copy5 {A} (src : list A) (si : Z) (dst : list A) (di : Z) (n : Z)
  : result (list A) :=
  if si <? 0 then Raise (ArgumentOutOfRangeException "sourceIndex")
  else if di <? 0 then Raise (ArgumentOutOfRangeException "destinationIndex")
  else if n <? 0 then Raise (ArgumentOutOfRangeException "length")
  else if Z.of_nat (length src) - si <? n then Raise (ArgumentException msg_src_short)
  else if Z.of_nat (length dst) - di <? n then Raise (ArgumentException msg_dst_short)
  else Ok (take (Z.to_nat di) dst
           ++ take (Z.to_nat n) (drop (Z.to_nat si) src)
           ++ drop (Z.to_nat (di + n)) dst).

(** [Array.Copy(source, dest, length)]. *)
Definition Array_Copy {A} (src dst : list A) (n : Z) : result (list A) :=
  Array_Copy5 src 0 dst 0 n.

(** [new byte[n]] and [new T[n]] for a reference type [T]. *)
Definition new_bytes (n : Z) : result (list Z) :=
  if n <? 0 then Raise OverflowException else Ok (replicate (Z.to_nat n) 0).
Definition new_refs {A} (n : Z) : result (list (option A)) :=
  if n <? 0 then Raise OverflowException else Ok (replicate (Z.to_nat n) None).

(** [x >> n] and [x << n] on [int]: the count is taken modulo 32. *)
Definition shr32 (x n : Z) : Z := Z.shiftr x (Z.land n 31).
Definition shl32 (x n : Z) : Z := wrap32 (Z.shiftl x (Z.land n 31)).
Definition to_ushort (z : Z) : Z := z mod 65536.

(** ** Mixer.SizedArray *)

Record SizedArray := mkSizedArray { sa_Array : list Z; sa_Length : Z }.

Definition SizedArray_new (array : list Z) : SizedArray :=
  mkSizedArray array (Z.of_nat (length array)).

(** [SizedArray.Shrunk]: the object after the call and what the getter
    returns. *)
Definition Shrunk (sa : SizedArray) : SizedArray * result (list Z) :=
  if sa_Length sa <? Z.of_nat (length (sa_Array sa)) then
    match new_bytes (sa_Length sa) with
    | Raise e => (sa, Raise e)
    | Ok ret =>
      match Array_Copy (sa_Array sa) ret (sa_Length sa) with
      | Raise e => (sa, Raise e)
      | Ok ret => (mkSizedArray ret (sa_Length sa), Ok ret)
      end
    end
  else (sa, Ok (sa_Array sa)).

(** ** Mixer.Convert and Channel.Mix *)

Definition msg_inline : string := "Can't convert to or from a mixer format inline".
Definition msg_two_mixer : string := "Can't convert between two different mixer formats".

Section Mixing.
Context `{GLFormat} `{GLMixer} `{Single} `{SourceState} `{Delegates} `{!SourceVirtuals}.

(** The tail of [Convert]: the conversion made by the native converter. *)
Definition Convert_native (srcData : list Z) (srcFormat destFormat : AudioFormat)
    (length0 : Z) : result SizedArray :=
  let length0 := if length0 <? 0 then Z.of_nat (length srcData) else length0 in
  let cvt := mkAudioCVT (wrap32 (Frequency srcFormat)) (Format srcFormat) (Channels srcFormat)
                        (wrap32 (Frequency destFormat)) (Format destFormat)
                        (Channels destFormat) length0 0 0 0 in
  let '(code, cvt) := GLMixer_SetupCVT cvt in
  match GLMixer_Check code with
  | Some e => Raise e
  | None =>
    if lenCvt cvt <=? Z.of_nat (length srcData) then
      let '(code, cvt, buf) := GLMixer_Convert cvt srcData in
      match GLMixer_Check code with
      | Some e => Raise e
      | None => Ok (mkSizedArray buf (lenCvt cvt))
      end
    else
      match new_bytes (lenCvt cvt) with
      | Raise e => Raise e
      | Ok ret =>
        match Array_Copy srcData ret length0 with
        | Raise e => Raise e
        | Ok ret =>
          let '(code, cvt, buf) := GLMixer_Convert cvt ret in
          match GLMixer_Check code with
          | Some e => Raise e
          | None => Ok (mkSizedArray buf (lenCvt cvt))
          end
        end
      end
  end.

(** [Mixer.Convert(byte[], AudioFormat, AudioFormat, int)].  The method calls
    itself; [fuel] bounds the depth of the calls and [None] says that the
    bound was reached. *)
Fixpoint Convert (fuel : nat) (w : World) (srcData : list Z)
    (srcFormat destFormat : AudioFormat) (length0 : Z) : option (result SizedArray) :=
  match fuel with
  | O => None
  | S fuel =>
    if AudioFormat_Equals srcFormat destFormat then Some (Ok (SizedArray_new srcData))
    else if 0 <=? length0 then
      if (Format srcFormat =? MixerFormat) || (Format destFormat =? MixerFormat)
      then Some (Raise (NotSupportedException msg_inline))
      else Some (Convert_native srcData srcFormat destFormat length0)
    else if (Format srcFormat =? MixerFormat) && (Format destFormat =? MixerFormat)
    then Some (Raise (NotSupportedException msg_two_mixer))
    else if Format srcFormat =? MixerFormat then
      let samples := Z.quot (Z.of_nat (length srcData)) 4 in
      match new_bytes (wrap32 (samples * SampleSize destFormat)) with
      | Raise e => Some (Raise e)
      | Ok ret =>
        let '(code, ret) :=
          GLMixer_ConvertAcc ret srcData (wrapu32 samples) (Format destFormat) in
        match GLMixer_Check code with
        | Some e => Some (Raise e)
        | None =>
          if negb (Channels srcFormat =? Channels destFormat)
             || negb (Frequency srcFormat =? Frequency destFormat)
          then
            let fmt := mkAudioFormat (Frequency srcFormat) (Format destFormat)
                                     (Channels srcFormat) in
            Convert fuel w ret fmt destFormat (-1)
          else Some (Ok (SizedArray_new ret))
        end
      end
    else if Format destFormat =? MixerFormat then
      if negb (init w) then Some (Raise (InvalidOperationException msg_not_init))
      else
        let first :=
          if negb (Channels srcFormat =? Channels (format w))
             || negb (Frequency srcFormat =? Frequency (format w))
          then
            match Convert fuel w srcData srcFormat (format w) (-1) with
            | None => None
            | Some (Raise e) => Some (Raise e)
            | Some (Ok sa) => Some (Ok (sa_Array sa, sa_Length sa, format w))
            end
          else Some (Ok (srcData, Z.of_nat (length srcData), srcFormat)) in
        match first with
        | None => None
        | Some (Raise e) => Some (Raise e)
        | Some (Ok (srcData, length0, srcFormat)) =>
          match int_div length0 (SampleSize srcFormat) with
          | Raise e => Some (Raise e)
          | Ok samples =>
            match new_bytes (wrap32 (samples * 4)) with
            | Raise e => Some (Raise e)
            | Ok ret =>
              let '(code, ret) :=
                GLMixer_ConvertMix ret srcData (wrapu32 samples) (Format srcFormat)
                                   MaxVolume in
              match GLMixer_Check code with
              | Some e => Some (Raise e)
              | None => Some (Ok (SizedArray_new ret))
              end
            end
          end
        end
    else Some (Convert_native srcData srcFormat destFormat length0)
  end.

(** [Convert(byte[], AudioFormat, SampleFormat, int)]. *)
Definition Convert_sample (fuel : nat) (w : World) (srcData : list Z)
    (srcFormat : AudioFormat) (destFormat : Z) (length0 : Z) : option (result SizedArray) :=
  let df := mkAudioFormat (Frequency srcFormat) destFormat (Channels srcFormat) in
  Convert fuel w srcData srcFormat df length0.

(** The subclass state of source [r], written back after a call of one of
    its virtual members. *)
Definition put_state (r : SourceRef) (st : impl) (w : World) : World :=
  match sources w !! r with
  | None => w
  | Some s => set_sources (<[r := set_src_state st s]> (sources w)) w
  end.

(** Invoking a [MixFilter] multicast delegate on a buffer ([null] is the
    empty list). *)
Definition run_filters (fs : list Filter) (buf : list Z) (frames : Z)
    (fmt : AudioFormat) : list Z :=
  fold_left (fun b f => run_filter f b frames fmt) fs buf.

(** The fading part of [Channel.Mix]: an exception, the end of a fade-out,
    or the channel and the volume the pass goes on with. *)
Inductive FadeStep :=
| FadeThrow (e : exn)
| FadeStop
| FadeGo (c : Channel) (vol : Z).

Definition Mix_fade (now : Z) (c : Channel) (vol : Z) : FadeStep :=
  if Fade_eqb (fade c) FadeNone then FadeGo c vol
  else
    let fadeSoFar := wrapu32 (now - fadeStart c) in
    let target := if Fade_eqb (fade c) FadeIn then vol else 0 in
    if fadeTime c <? fadeSoFar then
      if Fade_eqb (fade c) FadeOut then FadeStop
      else FadeGo (set_fade FadeNone c) target
    else
      match int_div (wrap32 (wrap32 (target - fadeVolume c) * wrap32 fadeSoFar))
                    (wrap32 (fadeTime c)) with
      | Raise e => FadeThrow e
      | Ok q => FadeGo c (wrap32 (fadeVolume c + q))
      end.

(** The part of [Channel.Mix] between the fade and the read loop: how much
    to read, in which format, and the conversion buffer. *)
Inductive Setup :=
| SetupThrow (e : exn)
| SetupReturn
| SetupGo (c : Channel) (fmt : AudioFormat) (conv : bool) (toRead : Z).

Definition Mix_setup (frames : Z) (rate0 : float) (fmt : AudioFormat)
    (c : Channel) (w : World) : Setup :=
  if convert c || negb (f_eq1 rate0) then
    if negb (init w) then SetupThrow (InvalidOperationException msg_not_init)
    else
      let len0 := wrap32 (frames * FrameSize (format w)) in
      let sized (fmt : AudioFormat) (conv : bool) (toRead : Z) : Setup :=
        let len0 := Z.max toRead len0 in
        let fits := match convBuf c with
                    | None => false
                    | Some b => negb (Z.of_nat (length b) <? len0)
                    end in
        if fits then SetupGo c fmt conv toRead
        else match new_bytes len0 with
             | Raise e => SetupThrow e
             | Ok b => SetupGo (set_convBuf (Some b) c) fmt conv toRead
             end in
      if f_eq1 rate0 then
        match int_div (wrap32 (len0 * sdDiv c)) (sdMul c) with
        | Raise e => SetupThrow e
        | Ok toRead => sized fmt (convert c) toRead
        end
      else
        let shift := FrameSize fmt in
        let freq := wrapu32 (f_scale (Frequency fmt) rate0 / 50 * 50) in
        if freq =? 0 then SetupReturn
        else
          let fmt := mkAudioFormat freq (Format fmt) (Channels fmt) in
          match SetupCVT fmt (format w) with
          | Raise e => SetupThrow e
          | Ok cvt =>
            match int_div (wrap32 (len0 * lenDiv cvt)) (lenMul cvt) with
            | Raise e => SetupThrow e
            | Ok q => sized fmt true (shl32 (shr32 (wrap32 (q + shift)) shift) shift)
            end
          end
  else SetupGo c fmt (convert c) frames.

(** One turn of the read loop, up to [toRead -= read]: what was read. *)
Definition Mix_chunk (fuel : nat) (r : SourceRef) (fmt : AudioFormat) (conv : bool)
    (vol : Z) (filters : list Filter) (c : Channel) (w : World) (stream : list Z)
    (toRead : Z) : option (Channel * World * list Z * result Z) :=
  let plain := match Filters c, filters with [], [] => true | _, _ => false end in
  match sources w !! r with
  | None => Some (c, w, stream, Raise NullReferenceException)
  | Some s =>
    if conv then
      match convBuf c with
      | None => Some (c, w, stream, Raise NullReferenceException)
      | Some buf =>
        let '(st, rd) := ReadBytes s buf toRead in
        let w := put_state r st w in
        match rd with
        | Raise e => Some (c, w, stream, Raise e)
        | Ok (read, buf) =>
          let c := set_convBuf (Some buf) c in
          match Convert fuel w buf fmt (format w) read with
          | None => None
          | Some (Raise e) => Some (c, w, stream, Raise e)
          | Some (Ok sa) =>
            let c := set_convBuf (Some (sa_Array sa)) c in
            match int_div (sa_Length sa) (FrameSize (format w)) with
            | Raise e => Some (c, w, stream, Raise e)
            | Ok framesRead =>
              let samples := wrap32 (framesRead * Channels (format w)) in
              if plain then
                let '(code, stream) :=
                  GLMixer_ConvertMix stream (sa_Array sa) (wrapu32 samples)
                                     (Format (format w)) (to_ushort vol) in
                match GLMixer_Check code with
                | Some e => Some (c, w, stream, Raise e)
                | None => Some (c, w, stream, Ok read)
                end
              else
                let '(code, buffer) :=
                  GLMixer_ConvertMix (replicate (Z.to_nat samples) 0) (sa_Array sa)
                                     (wrapu32 samples) (Format (format w)) MaxVolume in
                match GLMixer_Check code with
                | Some e => Some (c, w, stream, Raise e)
                | None =>
                  let buffer := run_filters (Filters c) buffer framesRead (format w) in
                  let buffer := run_filters filters buffer framesRead (format w) in
                  let '(code, stream) :=
                    GLMixer_Mix stream buffer (wrapu32 samples) (to_ushort vol) in
                  match GLMixer_Check code with
                  | Some e => Some (c, w, stream, Raise e)
                  | None => Some (c, w, stream, Ok read)
                  end
                end
            end
          end
        end
      end
    else if plain then
      let '(st, rd) := ReadFrames s stream toRead vol in
      let w := put_state r st w in
      match rd with
      | Raise e => Some (c, w, stream, Raise e)
      | Ok (read, stream) => Some (c, w, stream, Ok read)
      end
    else
      let '(st, rd) := ReadFrames s (replicate (Z.to_nat toRead) 0) toRead (-1) in
      let w := put_state r st w in
      match rd with
      | Raise e => Some (c, w, stream, Raise e)
      | Ok (read, buffer) =>
        if 0 <? read then
          let buffer := run_filters (Filters c) buffer read fmt in
          let buffer := run_filters filters buffer read fmt in
          if negb (init w)
          then Some (c, w, stream, Raise (InvalidOperationException msg_not_init))
          else
            let '(code, stream) :=
              GLMixer_Mix stream buffer (wrapu32 (wrap32 (read * Channels (format w))))
                          (to_ushort vol) in
            match GLMixer_Check code with
            | Some e => Some (c, w, stream, Raise e)
            | None => Some (c, w, stream, Ok read)
            end
        else Some (c, w, stream, Ok read)
      end
  end.

(** The read loop, [while(true)], and the statement after it.  [None]: the
    loop has not ended within [fuel] turns. *)
Fixpoint Mix_loop (fuel : nat) (r : SourceRef) (fmt : AudioFormat) (conv : bool)
    (vol : Z) (filters : list Filter) (c : Channel) (w : World) (stream : list Z)
    (toRead : Z) : option (Channel * World * list Z * result unit) :=
  match fuel with
  | O => None
  | S fuel =>
    match Mix_chunk fuel r fmt conv vol filters c w stream toRead with
    | None => None
    | Some (c, w, stream, Raise e) => Some (c, w, stream, Raise e)
    | Some (c, w, stream, Ok read) =>
      let toRead := wrap32 (toRead - read) in
      if toRead <=? 0 then
        match sources w !! r with
        | None => Some (c, w, stream, Raise NullReferenceException)
        | Some s => Some (set_position (Position_get s) c, w, stream, Ok tt)
        end
      else if read =? 0 then
        if loops c =? 0 then
          let '(c, w) := StopPlaying c w in Some (c, w, stream, Ok tt)
        else
          match sources w !! r with
          | None => Some (c, w, stream, Raise NullReferenceException)
          | Some s =>
            let '(st, ex) := Rewind s in
            let w := put_state r st w in
            match ex with
            | Some e => Some (c, w, stream, Raise e)
            | None =>
              let c := set_position 0 c in
              let c := if loops c =? Infinite then c
                       else set_loops (wrap32 (loops c - 1)) c in
              Mix_loop fuel r fmt conv vol filters c w stream toRead
            end
          end
      else Mix_loop fuel r fmt conv vol filters c w stream toRead
    end
  end.

(** [Channel.Mix] from [if(source.CanSeek) source.Position = position] on,
    with the volume [vol] the fade has left. *)
Definition Mix_body (fuel : nat) (r : SourceRef) (s : AudioSource) (rate0 : float)
    (c : Channel) (vol : Z) (w : World) (stream : list Z) (frames : Z)
    (filters : list Filter) : option (Channel * World * list Z * result unit) :=
  let '(st, ex) := if CanSeek s then Position_set s (position c)
                   else (src_state s, None) in
  let w := put_state r st w in
  match ex with
  | Some e => Some (c, w, stream, Raise e)
  | None =>
    match Mix_setup frames rate0 (src_format s) c w with
    | SetupThrow e => Some (c, w, stream, Raise e)
    | SetupReturn => Some (c, w, stream, Ok tt)
    | SetupGo c fmt conv toRead =>
      Mix_loop fuel r fmt conv vol filters c w stream toRead
    end
  end.

(** [Channel.Mix(stream, frames, filters)] at clock value [now]. *)
Definition Mix (fuel : nat) (now : Z) (c : Channel) (w : World) (stream : list Z)
    (frames : Z) (filters : list Filter)
  : option (Channel * World * list Z * result unit) :=
  match source c with
  | None => Some (c, w, stream, Ok tt)
  | Some r =>
    if paused c then Some (c, w, stream, Ok tt)
    else
      match sources w !! r with
      | None => Some (c, w, stream, Raise NullReferenceException)
      | Some s =>
        let rate0 := EffectiveRate c s in
        let vol := EffectiveVolume c s in
        if negb (timeout c =? Infinite) && (timeout c <? Age now c) then
          let '(c, w) := StopPlaying c w in Some (c, w, stream, Ok tt)
        else
          match Mix_fade now c vol with
          | FadeThrow e => Some (c, w, stream, Raise e)
          | FadeStop => let '(c, w) := StopPlaying c w in Some (c, w, stream, Ok tt)
          | FadeGo c vol => Mix_body fuel r s rate0 c vol w stream frames filters
          end
      end
  end.

(** *** Histories of one channel *)

(** The calls that act on a channel. *)
Inductive chan_op :=
| OpStop
| OpPause
| OpResume
| OpFadeOut (now fadeMs : Z)
| OpStart (now : Z) (r : SourceRef) (loops : Z) (fade : Fade) (fadeMs timeoutMs : Z)
| OpMix (fuel : nat) (now : Z) (stream : list Z) (frames : Z) (filters : list Filter).

(** One call; an exception leaves the state the call had reached. *)
Definition run_op (op : chan_op) (c : Channel) (w : World) : option (Channel * World) :=
  match op with
  | OpStop => Some (Stop c w)
  | OpPause => Some (Pause c, w)
  | OpResume => Some (Resume c, w)
  | OpFadeOut now fadeMs => Some (fst (Channel_FadeOut now fadeMs c w), w)
  | OpStart now r loops fade fadeMs timeoutMs =>
    Some (fst (Channel_StartPlaying now r loops fade fadeMs timeoutMs c w))
  | OpMix fuel now stream frames filters =>
    match Mix fuel now c w stream frames filters with
    | None => None
    | Some (c, w, _, _) => Some (c, w)
    end
  end.

(** A sequence of calls on one channel, with the number of bindings it has
    begun. *)
Fixpoint run_ops (ops : list chan_op) (c : Channel) (w : World) (begun : nat)
  : option (Channel * World * nat) :=
  match ops with
  | [] => Some (c, w, begun)
  | op :: ops =>
    match run_op op c w with
    | None => None
    | Some (c', w') =>
      let begun := match op, source c' with
                   | OpStart _ _ _ _ _ _, Some _ => S begun
                   | _, _ => begun
                   end in
      run_ops ops c' w' begun
    end
  end.

(** One call on some channel, as the rest of the program sees it. *)
Definition world_step (w w' : World) : Prop :=
  exists op c c', run_op op c w = Some (c', w').

(** What a call leaves alone: the identity of the channel and the handlers;
    the flags and the play count of every source; the binding and the log of
    handler calls. *)
Definition src_meta (s : AudioSource) : bool * bool * Z :=
  (CanRewind s, CanSeek s, playing s).
Definition static_kept (c : Channel) (w : World) (c' : Channel) (w' : World) : Prop :=
  number c' = number c /\ Finished c' = Finished c
  /\ ChannelFinished w' = ChannelFinished w.
Definition meta_kept (w w' : World) : Prop :=
  forall r0, src_meta <$> (sources w' !! r0) = src_meta <$> (sources w !! r0).
Definition quiet (c : Channel) (w : World) (c' : Channel) (w' : World) : Prop :=
  source c' = source c /\ fired w' = fired w.

(** The binding of [c] has ended: the channel is idle and the handlers have
    been called, once. *)
Definition ended (c : Channel) (w : World) (c' : Channel) (w' : World) : Prop :=
  is_Some (source c) /\ source c' = None
  /\ fired w' = fired w ++ finished_calls c w.

(** What every call other than a binding does: it leaves the binding as it
    is, or it ends it. *)
Definition step_ok (c : Channel) (w : World) (c' : Channel) (w' : World) : Prop :=
  static_kept c w c' w' /\ meta_kept w w'
  /\ (quiet c w c' w' \/ ended c w c' w').

(** 1 for a bound channel, 0 for an idle one. *)
Definition bindings_open (c : Channel) : nat :=
  match source c with Some _ => 1 | None => 0 end.

(** [x] is within 1 of [V * (D - t) / D], the value a linear fade from [V]
    to 0 over [D] has after [t]. *)
Definition within_one_of_linear (V D t x : Z) : Prop :=
  Z.abs (x * D - V * (D - t)) <= D.

End Mixing.

(** ** Mixer *)

Inductive MixPolicy := DontDivide | Divide.

Definition msg_bad_group : string := "Invalid group ID".
Definition msg_start_end : string := "start should be <= end".
Definition msg_already_init : string :=
  "Already initialized. Deinitialize first to change format".

(** [ArrayList.Remove] on a list of [int]: the first occurrence goes. *)
Fixpoint remove_first (x : Z) (l : list Z) : list Z :=
  match l with
  | [] => []
  | y :: l => if y =? x then l else y :: remove_first x l
  end.

(** [ArrayList.Contains]. *)
Definition contains (x : Z) (l : list Z) : bool := existsb (Z.eqb x) l.

(** The first index of a [null] entry, from index [i] on. *)
Fixpoint first_null {A} (l : list (option A)) (i : nat) : option nat :=
  match l with
  | [] => None
  | None :: _ => Some i
  | Some _ :: l => first_null l (S i)
  end.

Section MixerClass.
Context `{GLFormat} `{GLMixer} `{Single} `{SourceState} `{Delegates} `{!SourceVirtuals}.

(** The static fields of class [Mixer]; [init], [format] and the
    [ChannelFinished] event are in [world]. *)
Record Mixer := mkMixer {
  world : World;
  chans : option (list (option Channel));
  groups : option (list (option (list Z)));
  eFilters : list Filter;
  ePostFilters : list Filter;
  reserved : Z;
  playPolicy : PlayPolicy;
  mixPolicy : MixPolicy
}.

Definition set_world v (m : Mixer) : Mixer :=
  mkMixer v (chans m) (groups m) (eFilters m) (ePostFilters m) (reserved m)
          (playPolicy m) (mixPolicy m).
Definition set_chans v (m : Mixer) : Mixer :=
  mkMixer (world m) v (groups m) (eFilters m) (ePostFilters m) (reserved m)
          (playPolicy m) (mixPolicy m).
Definition set_groups v (m : Mixer) : Mixer :=
  mkMixer (world m) (chans m) v (eFilters m) (ePostFilters m) (reserved m)
          (playPolicy m) (mixPolicy m).
Definition set_reserved v (m : Mixer) : Mixer :=
  mkMixer (world m) (chans m) (groups m) (eFilters m) (ePostFilters m) v
          (playPolicy m) (mixPolicy m).
Definition set_playPolicy v (m : Mixer) : Mixer :=
  mkMixer (world m) (chans m) (groups m) (eFilters m) (ePostFilters m) (reserved m)
          v (mixPolicy m).
Definition set_mixPolicy v (m : Mixer) : Mixer :=
  mkMixer (world m) (chans m) (groups m) (eFilters m) (ePostFilters m) (reserved m)
          (playPolicy m) v.
Definition set_init v (w : World) : World :=
  mkWorld v (format w) (ChannelFinished w) (sources w) (fired w).
Definition set_format v (w : World) : World :=
  mkWorld (init w) v (ChannelFinished w) (sources w) (fired w).

Definition CheckInit (m : Mixer) : option exn :=
  if init (world m) then None else Some (InvalidOperationException msg_not_init).

Definition CheckChannel (channel : Z) (m : Mixer) : option exn :=
  match CheckInit m with
  | Some e => Some e
  | None =>
    if negb (channel =? FreeChannel) && (channel <? 0)
    then Some (ArgumentOutOfRangeException "channel") else None
  end.

(** [Mixer.Format], the getter. *)
Definition Mixer_Format (m : Mixer) : result AudioFormat :=
  match CheckInit m with
  | Some e => Raise e
  | None => Ok (format (world m))
  end.

(** [chans[i]] followed by a member access, and [lock(chans[i])]. *)
Definition get_chan (cs : list (option Channel)) (i : Z) : result Channel :=
  if i <? 0 then Raise IndexOutOfRangeException
  else match cs !! Z.to_nat i with
       | None => Raise IndexOutOfRangeException
       | Some None => Raise NullReferenceException
       | Some (Some c) => Ok c
       end.
Definition lock_chan (cs : list (option Channel)) (i : Z) : result Channel :=
  match get_chan cs i with
  | Raise NullReferenceException => Raise ArgumentNullException
  | r => r
  end.

(** A loop that calls a method on [chans[i]] for each [i] of a list of
    indices, in order, until one call throws. *)
Fixpoint each_chan (f : Channel -> World -> Channel * World * result unit)
    (idx : list Z) (cs : list (option Channel)) (w : World)
  : list (option Channel) * World * result unit :=
  match idx with
  | [] => (cs, w, Ok tt)
  | i :: idx =>
    match get_chan cs i with
    | Raise e => (cs, w, Raise e)
    | Ok c =>
      let '(c, w, r) := f c w in
      let cs := <[Z.to_nat i := Some c]> cs in
      match r with
      | Raise e => (cs, w, Raise e)
      | Ok _ => each_chan f idx cs w
      end
    end
  end.

Definition ReservedChannels_get (m : Mixer) : result Z :=
  match CheckInit m with
  | Some e => Raise e
  | None => Ok (reserved m)
  end.

Definition ReservedChannels_set (value : Z) (m : Mixer) : Mixer * result unit :=
  match CheckInit m with
  | Some e => (m, Raise e)
  | None =>
    if reserved m <? 0 then (m, Raise (ArgumentOutOfRangeException "value"))
    else match chans m with
         | None => (m, Raise NullReferenceException)
         | Some cs =>
           if Z.of_nat (length cs) <? reserved m
           then (m, Raise (ArgumentOutOfRangeException "value"))
           else (set_reserved value m, Ok tt)
         end
  end.

(** [for(i=from; i<to; i++) narr[i] = new Channel(i)]. *)
Definition fill_new (narr : list (option Channel)) (from to : Z)
  : list (option Channel) :=
  fold_left (fun a i => <[Z.to_nat i := Some (Channel_new i)]> a)
            (seqZ from (to - from)) narr.

Definition AllocateChannels (numChannels : Z) (m : Mixer) : Mixer * result unit :=
  match CheckInit m with
  | Some e => (m, Raise e)
  | None =>
    if numChannels <? 0 then (m, Raise (ArgumentOutOfRangeException "numChannels"))
    else
      match chans m with
      | None => (m, Raise NullReferenceException)
      | Some cs =>
        let n := Z.of_nat (length cs) in
        let '(cs, w, r) :=
          each_chan (fun c w => (Stop c w, Ok tt)) (seqZ numChannels (n - numChannels))
                    cs (world m) in
        let m := set_world w (set_chans (Some cs) m) in
        match r with
        | Raise e => (m, Raise e)
        | Ok _ =>
          match new_refs numChannels with
          | Raise e => (m, Raise e)
          | Ok narr =>
            (* Array.Copy(narr, chans, chans.Length): from the new array into
               the old one *)
            match Array_Copy narr cs n with
            | Raise e => (m, Raise e)
            | Ok old =>
              let m := set_chans (Some old) m in
              let narr := fill_new narr n numChannels in
              let m := set_chans (Some narr) m in
              let m := if numChannels <? reserved m
                       then set_reserved numChannels m else m in
              (m, Ok tt)
            end
          end
        end
      end
  end.

(** *** Groups *)

Definition ToGroup (group : Z) : Z := wrap32 (wrap32 (- group) - 2).

Definition GetGroup (group : Z) (m : Mixer) : result (list Z) :=
  match CheckInit m with
  | Some e => Raise e
  | None =>
    let index := ToGroup group in
    if index <? 0 then Raise (ArgumentException msg_bad_group)
    else match groups m with
         | None => Raise NullReferenceException
         | Some gs =>
           if Z.of_nat (length gs) <=? index
           then Raise (ArgumentException msg_bad_group)
           else match gs !! Z.to_nat index with
                | Some (Some l) => Ok l
                | _ => Raise (ArgumentException msg_bad_group)
                end
         end
  end.

(** Writing the list object of a group that [GetGroup] has returned. *)
Definition put_group (group : Z) (l : list Z) (m : Mixer) : Mixer :=
  match groups m with
  | None => m
  | Some gs => set_groups (Some (<[Z.to_nat (ToGroup group) := Some l]> gs)) m
  end.

Definition AddGroup (m : Mixer) : Mixer * result Z :=
  match CheckInit m with
  | Some e => (m, Raise e)
  | None =>
    match groups m with
    | None => (m, Raise ArgumentNullException)
    | Some gs =>
      match first_null gs 0 with
      | Some i => (set_groups (Some (<[i := Some []]> gs)) m, Ok (Z.of_nat i))
      | None => (set_groups (Some (gs ++ [Some []])) m, Ok (Z.of_nat (length gs)))
      end
    end
  end.

Definition RemoveGroup (group : Z) (m : Mixer) : Mixer * result unit :=
  match groups m with
  | None => (m, Raise ArgumentNullException)
  | Some gs =>
    match GetGroup group m with
    | Raise e => (m, Raise e)
    | Ok _ => (set_groups (Some (<[Z.to_nat (ToGroup group) := None]> gs)) m, Ok tt)
    end
  end.

Definition GroupChannel (channel group : Z) (m : Mixer) : Mixer * result unit :=
  match CheckChannel channel m with
  | Some e => (m, Raise e)
  | None =>
    match groups m with
    | None => (m, Raise ArgumentNullException)
    | Some _ =>
      match GetGroup group m with
      | Raise e => (m, Raise e)
      | Ok l =>
        if contains channel l then (m, Ok tt)
        else (put_group group (l ++ [channel]) m, Ok tt)
      end
    end
  end.

(** [for(; start<=end; start++) if(!list.Contains(start)) list.Add(start)];
    [None] when the loop has not ended within [fuel] turns. *)
Fixpoint GroupRange_loop (fuel : nat) (start end_ : Z) (l : list Z) : option (list Z) :=
  match fuel with
  | O => None
  | S fuel =>
    if start <=? end_ then
      GroupRange_loop fuel (wrap32 (start + 1)) end_
                      (if contains start l then l else l ++ [start])
    else Some l
  end.

Definition GroupRange (fuel : nat) (start end_ group : Z) (m : Mixer)
  : option (Mixer * result unit) :=
  match CheckChannel start m with
  | Some e => Some (m, Raise e)
  | None =>
    match CheckChannel end_ m with
    | Some e => Some (m, Raise e)
    | None =>
      if end_ <? start then Some (m, Raise (ArgumentException msg_start_end))
      else
        match groups m with
        | None => Some (m, Raise ArgumentNullException)
        | Some _ =>
          match GetGroup group m with
          | Raise e => Some (m, Raise e)
          | Ok l =>
            match GroupRange_loop fuel start end_ l with
            | None => None
            | Some l => Some (put_group group l m, Ok tt)
            end
          end
        end
    end
  end.

Definition UngroupChannel (channel group : Z) (m : Mixer) : Mixer * result unit :=
  match groups m with
  | None => (m, Raise ArgumentNullException)
  | Some _ =>
    match GetGroup group m with
    | Raise e => (m, Raise e)
    | Ok l => (put_group group (remove_first channel l) m, Ok tt)
    end
  end.

Definition GroupSize (group : Z) (m : Mixer) : result Z :=
  match groups m with
  | None => Raise ArgumentNullException
  | Some _ =>
    match GetGroup group m with
    | Raise e => Raise e
    | Ok l => Ok (Z.of_nat (length l))
    end
  end.

Definition GetGroupChannels (group : Z) (m : Mixer) : result (list Z) :=
  match groups m with
  | None => Raise ArgumentNullException
  | Some _ => GetGroup group m
  end.

(** *** Choosing a channel *)

(** [if(chans[i].Age>age) { age=chans[i].Age; oi=i; }] over the indices
    [idx]. *)
Fixpoint oldest (now : Z) (cs : list (option Channel)) (idx : list Z) (oi age : Z)
  : result Z :=
  match idx with
  | [] => Ok oi
  | i :: idx =>
    match get_chan cs i with
    | Raise e => Raise e
    | Ok c => if age <? Age now c then oldest now cs idx i (Age now c)
              else oldest now cs idx oi age
    end
  end.

(** [if(chans[i].Priority<prio) { prio=chans[i].Priority; pi=i; }]. *)
Fixpoint lowest_priority (cs : list (option Channel)) (idx : list Z) (pi prio : Z)
  : result (Z * Z) :=
  match idx with
  | [] => Ok (pi, prio)
  | i :: idx =>
    match get_chan cs i with
    | Raise e => Raise e
    | Ok c => if priority c <? prio then lowest_priority cs idx i (priority c)
              else lowest_priority cs idx pi prio
    end
  end.

(** [if(chans[i].Priority==prio && chans[i].Age>age) { oi=i; age=chans[i].Age; }]. *)
Fixpoint oldest_of_priority (now : Z) (cs : list (option Channel)) (idx : list Z)
    (prio oi age : Z) : result Z :=
  match idx with
  | [] => Ok oi
  | i :: idx =>
    match get_chan cs i with
    | Raise e => Raise e
    | Ok c => if (priority c =? prio) && (age <? Age now c)
              then oldest_of_priority now cs idx prio i (Age now c)
              else oldest_of_priority now cs idx prio oi age
    end
  end.

(** The indices a loop over a group visits after [if(chan<reserved) continue]. *)
Definition unreserved_of (m : Mixer) (l : list Z) : list Z :=
  filter (fun chan => reserved m <= chan) l.

Definition OldestChannel (now : Z) (group : Z) (unreserved : bool) (m : Mixer)
  : result Z :=
  if group =? -1 then
    match CheckInit m with
    | Some e => Raise e
    | None =>
      match chans m with
      | None => Raise NullReferenceException
      | Some cs =>
        let oi := if unreserved then 0 else reserved m in
        oldest now cs (seqZ oi (Z.of_nat (length cs) - oi)) oi 0
      end
    end
  else
    match groups m with
    | None => Raise ArgumentNullException
    | Some _ =>
      match GetGroup group m with
      | Raise e => Raise e
      | Ok l =>
        match chans m with
        | None =>
          if forallb (fun chan => negb unreserved && (chan <? reserved m)) l
          then Ok 0 else Raise NullReferenceException
        | Some cs => oldest now cs (if unreserved then l else unreserved_of m l) 0 0
        end
      end
    end.

(** *** Operations on all channels or on a group *)

Definition on_channels (f : Channel -> World -> Channel * World * result unit)
    (group : Z) (m : Mixer) : Mixer * result unit :=
  if group =? -1 then
    match chans m with
    | None => (m, Raise NullReferenceException)
    | Some cs =>
      let '(cs, w, r) := each_chan f (seqZ 0 (Z.of_nat (length cs))) cs (world m) in
      (set_world w (set_chans (Some cs) m), r)
    end
  else
    match groups m with
    | None => (m, Raise ArgumentNullException)
    | Some _ =>
      match GetGroup group m with
      | Raise e => (m, Raise e)
      | Ok l =>
        match chans m with
        | None => (m, if l is [] then Ok tt else Raise NullReferenceException)
        | Some cs =>
          let '(cs, w, r) := each_chan f l cs (world m) in
          (set_world w (set_chans (Some cs) m), r)
        end
      end
    end.

Definition Mixer_FadeOut (now : Z) (group : Z) (fadeMs : Z) (m : Mixer)
  : Mixer * result unit :=
  on_channels (fun c w => let '(c, r) := Channel_FadeOut now fadeMs c w in (c, w, r))
              group m.
Definition Mixer_Pause (group : Z) (m : Mixer) : Mixer * result unit :=
  on_channels (fun c w => (Pause c, w, Ok tt)) group m.
Definition Mixer_Resume (group : Z) (m : Mixer) : Mixer * result unit :=
  on_channels (fun c w => (Resume c, w, Ok tt)) group m.
Definition Mixer_Stop (group : Z) (m : Mixer) : Mixer * result unit :=
  on_channels (fun c w => (Stop c w, Ok tt)) group m.

(** The test [Status==AudioStatus.Stopped], and its failure on every
    channel of a list of indices. *)
Definition is_idle (c : Channel) : bool :=
  match Status c with Stopped => true | _ => false end.
Definition all_busy (cs : list (option Channel)) (idx : list Z) : bool :=
  forallb (fun i => match get_chan cs i with
                    | Ok c => negb (is_idle c)
                    | Raise _ => false
                    end) idx.

(** *** Mixer.StartPlaying *)

Section Start.
Variables (now : Z) (r : SourceRef) (loops0 : Z) (fade0 : Fade) (fadeMs timeoutMs : Z).

(** [chans[i].StartPlaying(source, loops, fade, fadeMs, timeoutMs); return i;]
    on the channel [c] read from slot [i]. *)
Definition bind_chan (i : Z) (c : Channel) (cs : list (option Channel)) (m : Mixer)
  : Mixer * result Z :=
  let '(c, w, res) := Channel_StartPlaying now r loops0 fade0 fadeMs timeoutMs c (world m) in
  let m := set_world w (set_chans (Some (<[Z.to_nat i := Some c]> cs)) m) in
  (m, match res with Raise e => Raise e | Ok _ => Ok i end).

(** One pass over the candidates: the value of [tried] after it and, when
    the pass has left the method, the outcome. *)
Fixpoint scan_idle (idx : list Z) (tried : bool) (cs : list (option Channel))
    (m : Mixer) : bool * option (Mixer * result Z) :=
  match idx with
  | [] => (tried, None)
  | i :: idx =>
    match get_chan cs i with
    | Raise e => (tried, Some (m, Raise e))
    | Ok c =>
      match Status c with
      | Stopped =>
        match lock_chan cs i with
        | Raise e => (true, Some (m, Raise e))
        | Ok c =>
          match Status c with
          | Stopped => (true, Some (bind_chan i c cs m))
          | _ => scan_idle idx true cs m
          end
        end
      | _ => scan_idle idx tried cs m
      end
    end
  end.

(** The indices the scan visits. *)
Definition candidates (channel : Z) (cs : list (option Channel)) (m : Mixer)
  : result (list Z) :=
  if channel =? FreeChannel
  then Ok (seqZ (reserved m) (Z.of_nat (length cs) - reserved m))
  else match groups m with
       | None => Raise ArgumentNullException
       | Some _ =>
         match GetGroup channel m with
         | Raise e => Raise e
         | Ok l => Ok (unreserved_of m l)
         end
       end.

(** [lock(chans[oi]) chans[oi].StartPlaying(...); return oi;]. *)
Definition take_chan (oi : Z) (cs : list (option Channel)) (m : Mixer)
  : Mixer * result Z :=
  match lock_chan cs oi with
  | Raise e => (m, Raise e)
  | Ok c => bind_chan oi c cs m
  end.

(** [switch(playPolicy)] over the candidates [idx]. *)
Definition by_policy (idx : list Z) (cs : list (option Channel)) (m : Mixer)
  : Mixer * result Z :=
  match playPolicy m with
  | Oldest =>
    match oldest now cs idx (reserved m) 0 with
    | Raise e => (m, Raise e)
    | Ok oi => take_chan oi cs m
    end
  | Priority =>
    match lowest_priority cs idx (reserved m) int_MaxValue with
    | Raise e => (m, Raise e)
    | Ok (pi, _) => take_chan pi cs m
    end
  | OldestPriority =>
    match lowest_priority cs idx (reserved m) int_MaxValue with
    | Raise e => (m, Raise e)
    | Ok (pi, prio) =>
      match oldest_of_priority now cs idx prio pi 0 with
      | Raise e => (m, Raise e)
      | Ok oi => take_chan oi cs m
      end
    end
  | Fail => (m, Ok (-1))
  end.

(** [do { ... } while(!tried)] and what follows it; [None] when the loop
    has not ended within [fuel] turns. *)
Fixpoint try_idle (fuel : nat) (channel : Z) (cs : list (option Channel)) (m : Mixer)
  : option (Mixer * result Z) :=
  match fuel with
  | O => None
  | S fuel =>
    match candidates channel cs m with
    | Raise e => Some (m, Raise e)
    | Ok idx =>
      match scan_idle idx false cs m with
      | (_, Some out) => Some out
      | (true, None) => Some (by_policy idx cs m)
      | (false, None) => try_idle fuel channel cs m
      end
    end
  end.

Definition Mixer_StartPlaying (fuel : nat) (channel : Z) (m : Mixer)
  : option (Mixer * result Z) :=
  match CheckInit m with
  | Some e => Some (m, Raise e)
  | None =>
    match chans m with
    | None => Some (m, Raise NullReferenceException)
    | Some cs =>
      if reserved m =? Z.of_nat (length cs) then Some (m, Ok (-1))
      else try_idle fuel channel cs m
    end
  end.

(** [Play(loops, timeoutMs, channel)] and [FadeIn(fadeMs, loops, timeoutMs,
    channel)] of [AudioSource], which differ in the fade they pass. *)
Definition AudioSource_start (fuel : nat) (channel : Z) (m : Mixer)
  : option (Mixer * result Z) :=
  if channel <? 0 then Mixer_StartPlaying fuel channel m
  else
    match chans m with
    | None => Some (m, Raise NullReferenceException)
    | Some cs => Some (take_chan channel cs m)
    end.

End Start.

Definition AudioSource_Play (fuel : nat) (now : Z) (r : SourceRef) (loops timeoutMs : Z)
    (channel : Z) (m : Mixer) : option (Mixer * result Z) :=
  AudioSource_start now r loops FadeNone 0 timeoutMs fuel channel m.

Definition AudioSource_FadeIn (fuel : nat) (now : Z) (r : SourceRef) (fadeMs : Z)
    (loops timeoutMs : Z) (channel : Z) (m : Mixer) : option (Mixer * result Z) :=
  AudioSource_start now r loops FadeIn fadeMs timeoutMs fuel channel m.

(** *** Mixer.FillBuffer *)

(** [for(i...) lock(chans[i]) chans[i].Mix(stream, frames, eFilters)]. *)
Fixpoint mix_all (fuel : nat) (now : Z) (idx : list Z) (frames : Z) (filters : list Filter)
    (cs : list (option Channel)) (w : World) (stream : list Z)
  : option (list (option Channel) * World * list Z * result unit) :=
  match idx with
  | [] => Some (cs, w, stream, Ok tt)
  | i :: idx =>
    match lock_chan cs i with
    | Raise e => Some (cs, w, stream, Raise e)
    | Ok c =>
      match Mix fuel now c w stream frames filters with
      | None => None
      | Some (c, w, stream, res) =>
        let cs := <[Z.to_nat i := Some c]> cs in
        match res with
        | Raise e => Some (cs, w, stream, Raise e)
        | Ok _ => mix_all fuel now idx frames filters cs w stream
        end
      end
    end
  end.

Definition FillBuffer (fuel : nat) (now : Z) (stream : list Z) (frames : Z) (m : Mixer)
  : option (Mixer * list Z * result unit) :=
  match chans m with
  | None => Some (m, stream, Raise NullReferenceException)
  | Some cs =>
    let n := Z.of_nat (length cs) in
    match mix_all fuel now (seqZ 0 n) (wrap32 frames) (eFilters m) cs (world m) stream with
    | None => None
    | Some (cs, w, stream, res) =>
      let m := set_world w (set_chans (Some cs) m) in
      match res with
      | Raise e => Some (m, stream, Raise e)
      | Ok _ =>
        let stream := run_filters (ePostFilters m) stream (wrap32 frames) (format w) in
        match mixPolicy m with
        | Divide => Some (m, snd (GLMixer_DivideAccumulator stream n), Ok tt)
        | DontDivide => Some (m, stream, Ok tt)
        end
      end
    end
  end.

End MixerClass.

(** *** Mixer.Initialize and Mixer.Deinitialize *)

(** The audio device, as [Initialize] sees it through [SDL] and [GLMixer]. *)
Class Device := {
  SDL_Initialize : option exn;               (* SDL.Initialize(InitFlag.Audio) *)
  GLMixer_Init : Z -> Z -> Z -> Z -> Z;      (* frequency, format, channels, bufferMs *)
  GLMixer_GetFormat : Z * (Z * Z * Z);       (* code, (freq, form, chan) *)
  SDL_Check : Z -> option exn
}.

Definition to_short (z : Z) : Z := (z + 32768) mod 65536 - 32768.

Section Lifecycle.
Context `{GLFormat} `{GLMixer} `{Single} `{SourceState} `{Delegates} `{Device}.

Definition Deinitialize (m : Mixer) : Mixer :=
  if init (world m)
  then set_world (set_init false (world m)) (set_groups None (set_chans None m))
  else m.

Definition Initialize (frequency format0 chans0 bufferMs : Z) (m : Mixer)
  : Mixer * result bool :=
  if init (world m) then (m, Raise (InvalidOperationException msg_already_init))
  else
    match SDL_Initialize with
    | Some e => (m, Raise e)
    | None =>
      let m := set_world (set_init true (world m)) m in
      let m := set_chans (Some []) m in
      let m := set_groups (Some []) m in
      match GLMixer_Check (GLMixer_Init frequency (to_ushort format0) (to_byte chans0)
                                        bufferMs) with
      | Some e => (Deinitialize m, Raise e)
      | None =>
        let '(code, (freq, form, chan)) := GLMixer_GetFormat in
        match SDL_Check code with
        | Some e => (m, Raise e)
        | None =>
          let m := set_world (set_format (mkAudioFormat freq form chan) (world m)) m in
          (m, Ok ((freq =? frequency) && (form =? to_short format0)
                  && (chan =? to_byte chans0)))
        end
      end
    end.

End Lifecycle.

(** ** SampleSource *)

(** The fields [SampleSource] adds to [AudioSource]. *)
Record SampleState := mkSampleState { data : list Z; curPos : Z }.

Definition SampleSource_state : SourceState := {| impl := SampleState |}.

Section SampleSources.
Context `{GLFormat} `{GLMixer} `{Single}.
Existing Instance SampleSource_state.

Definition set_curPos (v : Z) (s : AudioSource) : SampleState :=
  mkSampleState (data (src_state s)) v.

Definition SampleSource_Position_get (s : AudioSource) : Z := curPos (src_state s).

Definition SampleSource_Position_set (s : AudioSource) (value : Z)
  : SampleState * option exn :=
  if value =? curPos (src_state s) then (src_state s, None)
  else if (value <? 0) || (src_length s <? value)
  then (src_state s, Some (ArgumentOutOfRangeException "Position"))
  else (set_curPos value s, None).

Definition SampleSource_Rewind (s : AudioSource) : SampleState * option exn :=
  SampleSource_Position_set s 0.

Definition SampleSource_ReadAll (s : AudioSource) : list Z := data (src_state s).

Definition SampleSource_ReadBytes (s : AudioSource) (buf : list Z) (length0 : Z)
  : SampleState * result (Z * list Z) :=
  let pos := curPos (src_state s) in
  let toRead := Z.min length0 (wrap32 (src_length s - pos)) in
  match Array_Copy5 (data (src_state s)) pos buf 0 toRead with
  | Raise e => (src_state s, Raise e)
  | Ok buf => (set_curPos (wrap32 (pos + toRead)) s, Ok (toRead, buf))
  end.

Definition SampleSource_ReadFrames (s : AudioSource) (dest : list Z) (frames vol : Z)
  : SampleState * result (Z * list Z) :=
  let pos := curPos (src_state s) in
  let fmt := src_format s in
  let shift := shr32 (FrameSize fmt) 1 in
  let toRead := Z.min (wrap32 (src_length s - pos)) (shl32 frames shift) in
  let readFrames := shr32 toRead shift in
  let samples := wrap32 (readFrames * Channels fmt) in
  let src := drop (Z.to_nat pos) (data (src_state s)) in
  let dest :=
    if Format fmt =? MixerFormat then
      if 0 <=? vol then snd (GLMixer_Mix dest src (wrapu32 samples) (to_ushort vol))
      else snd (GLMixer_Copy dest src (wrapu32 samples))
    else snd (GLMixer_ConvertMix dest src (wrapu32 samples) (Format fmt)
                (to_ushort (if vol <? 0 then MaxVolume else vol))) in
  (set_curPos (wrap32 (pos + toRead)) s, Ok (readFrames, dest)).

Definition SampleSource_virtuals : SourceVirtuals := {|
  Position_get := SampleSource_Position_get;
  Position_set := SampleSource_Position_set;
  Rewind := SampleSource_Rewind;
  ReadBytes := SampleSource_ReadBytes;
  ReadFrames := SampleSource_ReadFrames
|}.

(** The object a [SampleSource] constructor leaves when it keeps the bytes
    [bytes] in format [fmt]. *)
Definition SampleSource_of (bytes : list Z) (fmt : AudioFormat) : AudioSource :=
  mkAudioSource true true fmt f_one MaxVolume (Z.of_nat (length bytes)) 0 0
                (mkSampleState bytes 0).

End SampleSources.

(** ** Instances used to run the model *)

(** IEEE 754 binary32. *)
Definition b32_of_Z (n : Z) : spec_float := binary_normalize 24 128 n 0 false.
Definition b32_trunc (f : spec_float) : Z :=
  match f with
  | S754_finite s m e =>
    let a := if 0 <=? e then Z.pos m * 2 ^ e else Z.quot (Z.pos m) (2 ^ (- e)) in
    if s then - a else a
  | _ => 0
  end.
Definition Single_binary32 : Single := {|
  float := spec_float;
  f_one := SFone 24 128;
  f_lt0 := fun x => SFltb x (S754_zero false);
  f_eq1 := fun x => SFeqb x (SFone 24 128);
  f_mul := SFmul 24 128;
  f_scale := fun n x => wrapu32 (b32_trunc (SFmul 24 128 (b32_of_Z n) x))
|}.

(** The values SDL gives the bits of a sample format, and a 32-bit signed
    format for the accumulator. *)
Definition GLFormat_sdl : GLFormat := {| BitsPart := 255; MixerFormat := 32800 |}.

(** A native library in which every call succeeds and leaves the buffers as
    they are; a non-zero code is an error. *)
Definition GLMixer_quiet : GLMixer := {|
  GLMixer_Check := fun code => if code =? 0 then None else Some (ExternalException code);
  GLMixer_SetupCVT := fun cvt => (0, set_len_ratio 1 1 cvt);
  GLMixer_Convert := fun cvt buf => (0, cvt, buf);
  GLMixer_ConvertMix := fun dest _ _ _ _ => (0, dest);
  GLMixer_ConvertAcc := fun dest _ _ _ => (0, dest);
  GLMixer_Mix := fun dest _ _ _ => (0, dest);
  GLMixer_Copy := fun dest _ _ => (0, dest);
  GLMixer_DivideAccumulator := fun acc _ => (0, acc)
|}.

(** Delegates as functions. *)
Definition Delegates_fun : Delegates := {|
  Filter := list Z -> Z -> AudioFormat -> list Z;
  run_filter := fun f => f
|}.

(** A device that opens and reports 22050 Hz, signed 16-bit, stereo. *)
Definition Device_ok : Device := {|
  SDL_Initialize := None;
  GLMixer_Init := fun _ _ _ _ => 0;
  GLMixer_GetFormat := (0, (22050, 32784, 2));
  SDL_Check := fun code => if code =? 0 then None else Some (ExternalException code)
|}.

(** ** Sample objects *)

Section Demo.
Existing Instances GLFormat_sdl GLMixer_quiet Single_binary32 SampleSource_state
  Delegates_fun Device_ok SampleSource_virtuals.

Definition demo_format : AudioFormat := mkAudioFormat 22050 32784 2.

(** Eight bytes of samples held in memory. *)
Definition demo_sample : AudioSource := SampleSource_of [0; 1; 2; 3; 4; 5; 6; 7] demo_format.

(** A source over a stream that cannot seek. *)
Definition demo_stream : AudioSource :=
  mkAudioSource false false demo_format f_one MaxVolume (-1) 0 0 (mkSampleState [] 0).

Definition demo_world : World :=
  mkWorld true demo_format [7%nat]
          (<[1%nat := demo_stream]> (<[0%nat := demo_sample]> ∅)) [].

(** Channel 0, with one handler: idle, and playing [demo_sample] with no
    time-out. *)
Definition demo_idle : Channel := set_Finished [3%nat] (Channel_new 0).
Definition demo_busy : Channel := set_timeout Infinite (set_source (Some 0%nat) demo_idle).

Definition demo_mixer (cs : list (option Channel)) : Mixer :=
  mkMixer demo_world (Some cs) (Some []) [] [] 0 Fail DontDivide.

Definition minus_one : float := SFopp (SFone 24 128).

(** [demo_busy] after [FadeOut(16777216)] at time 0. *)
Definition demo_fading : Channel := fst (Channel_FadeOut 0 16777216 demo_busy demo_world).

(** A binding of [demo_sample] that is stopped twice. *)
Definition demo_history : list chan_op :=
  [OpStart 0 0%nat 0 FadeNone 0 Infinite; OpStop; OpStop].

(** Bindings of [demo_sample] that end by [Stop], by a time-out of 100 ms
    seen by a mix pass at 200 ms, by a fade-out of 50 ms begun at 10 ms and
    seen by a mix pass at 100 ms, and by the end of the eight bytes in a mix
    pass that asks for four frames. *)
Definition demo_histories : list (list chan_op) :=
  [ demo_history;
    [OpStart 0 0%nat 0 FadeNone 0 100; OpMix 5 200 [] 1 []];
    [OpStart 0 0%nat 0 FadeNone 0 Infinite; OpFadeOut 10 50; OpMix 5 100 [] 1 []];
    [OpStart 0 0%nat 0 FadeNone 0 Infinite; OpMix 5 1 [] 4 []] ].

(** [demo_stream] played once on [demo_idle], and stopped. *)
Definition demo_played : Channel * World :=
  fst (Channel_StartPlaying 0 1%nat 0 FadeNone 0 Infinite demo_idle demo_world).
Definition demo_stopped : Channel * World := Stop (fst demo_played) (snd demo_played).

(** Channel 1, idle, and the two channels together. *)
Definition demo_second : Channel := Channel_new 1.
Definition demo_pair : list (option Channel) := [Some demo_busy; Some demo_second].

(** A mixer whose only group, -2, holds channel 0. *)
Definition demo_grouped : Mixer :=
  mkMixer demo_world (Some demo_pair) (Some [Some [0]]) [] [] 0 Fail DontDivide.

(** A mixer that has not been initialised. *)
Definition demo_off : Mixer :=
  mkMixer (set_init false demo_world) None None [] [] 0 Fail DontDivide.

(** The world of a mixer whose own format is the accumulator format. *)
Definition demo_world32 : World := set_format (mkAudioFormat 22050 32800 2) demo_world.

(** [demo_sample] read to its end. *)
Definition demo_sample_read : AudioSource :=
  set_src_state (mkSampleState [0; 1; 2; 3; 4; 5; 6; 7] 8) demo_sample.

(** [demo_sample] faded in over 1000 ms on [demo_idle], from time 0. *)
Definition demo_faded_in : Channel * World :=
  fst (Channel_StartPlaying 0 0%nat 0 FadeIn 1000 Infinite demo_idle demo_world).

End Demo.

(** * Properties *)

(** ** Sources and formats *)

Section SourceFacts.
Context `{GLFormat} `{GLMixer} `{Single} `{SourceState} `{Delegates}.

(** C5.  The [PlaybackRate] setters of [AudioSource] and of [Channel] test
    the rate that is stored, not the one that is assigned: while the stored
    rate is not negative every assignment succeeds and stores the value, a
    negative one included; once the stored rate is negative every assignment
    raises [ArgumentOutOfRangeException] and stores nothing. *)
Theorem PlaybackRate_setters_test_the_stored_rate
    (value : float) (s : AudioSource) (c : Channel) :
  (f_lt0 (src_rate s) = false ->
     AudioSource_set_PlaybackRate value s = (set_src_rate value s, Ok tt))
  /\ (f_lt0 (rate c) = false ->
     Channel_set_PlaybackRate value c = (set_rate value c, Ok tt))
  /\ (f_lt0 (src_rate s) = true ->
     AudioSource_set_PlaybackRate value s
     = (s, Raise (ArgumentOutOfRangeException "PlaybackRate")))
  /\ (f_lt0 (rate c) = true ->
     Channel_set_PlaybackRate value c
     = (c, Raise (ArgumentOutOfRangeException "PlaybackRate"))).
Proof.
  unfold AudioSource_set_PlaybackRate, Channel_set_PlaybackRate, CheckRate.
  split; [|split; [|split]]; intros ->; reflexivity.
Qed.

(** C8.  [SetupCVT] on two equal formats whose sample format is the mixer
    format raises [NotImplementedException]: the test for two mixer formats
    follows the test for equal formats and does not look at its outcome. *)
Theorem SetupCVT_equal_mixer_formats_raise (frequency channels : Z) :
  let f := mkAudioFormat frequency MixerFormat channels in
  AudioFormat_Equals f f = true
  /\ SetupCVT f f = Raise (NotImplementedException msg_two_mixer).
Proof.
  intros f. split.
  - unfold AudioFormat_Equals, f. cbn. rewrite !Z.eqb_refl. reflexivity.
  - unfold SetupCVT, f. cbn. rewrite Z.eqb_refl. reflexivity.
Qed.

Lemma StopPlaying_sources (c : Channel) (w : World) :
  sources (snd (StopPlaying c w)) = sources w.
Proof. unfold StopPlaying. destruct (source c); reflexivity. Qed.

Lemma StopPlaying_source (c : Channel) (w : World) :
  source (fst (StopPlaying c w)) = None.
Proof. unfold StopPlaying. destruct (source c) eqn:E; [reflexivity | exact E]. Qed.

Lemma StopPlaying_static (c : Channel) (w : World) :
  init (snd (StopPlaying c w)) = init w
  /\ format (snd (StopPlaying c w)) = format w
  /\ ChannelFinished (snd (StopPlaying c w)) = ChannelFinished w.
Proof. unfold StopPlaying. destruct (source c); cbn; auto. Qed.


End SourceFacts.

(** ** The mixer *)

Lemma wrap32_id (z : Z) : -2147483648 <= z < 2147483648 -> wrap32 z = z.
Proof. intros Hz. unfold wrap32. rewrite Z.mod_small; lia. Qed.

Lemma ToGroup_negative (g : Z) : 0 <= g <= 2147483646 -> ToGroup g < 0.
Proof.
  intros Hg. unfold ToGroup. rewrite (wrap32_id (- g)) by lia.
  rewrite wrap32_id by lia. lia.
Qed.

Lemma ToGroup_involutive (g : Z) :
  -2147483648 <= g < 2147483648 -> ToGroup (ToGroup g) = g.
Proof.
  intros Hg. unfold ToGroup, wrap32. Z.div_mod_to_equations. lia.
Qed.

Lemma first_null_spec {A} (l : list (option A)) (k i : nat) :
  first_null l k = Some i ->
  (k <= i < k + length l)%nat /\ l !! (i - k)%nat = Some None
  /\ forall j, (j < i - k)%nat -> l !! j <> Some None.
Proof.
  revert k. induction l as [|[a|] l IH]; intros k; cbn.
  - discriminate.
  - intros Hf. apply IH in Hf as (Hb & Hl & Hlow).
    replace (i - k)%nat with (S (i - S k)) by lia. cbn.
    split; [lia|]. split; [exact Hl|].
    intros [|j] Hj; cbn; [discriminate|]. apply Hlow. lia.
  - intros [= <-]. rewrite Nat.sub_diag. cbn. split; [lia|]. split; [reflexivity|].
    intros j Hj. lia.
Qed.

Lemma first_null_none {A} (l : list (option A)) (k : nat) :
  first_null l k = None -> forall j, l !! j <> Some None.
Proof.
  revert k. induction l as [|[a|] l IH]; intros k; cbn.
  - intros _ j. rewrite lookup_nil. discriminate.
  - intros Hf [|j]; cbn; [discriminate|]. eapply IH, Hf.
  - discriminate.
Qed.

Section MixerFacts.
Context `{GLFormat} `{GLMixer} `{Single} `{SourceState} `{Delegates}.

(** C4.  The [ReservedChannels] setter tests the count that is stored, not
    the one that is assigned: on an initialised mixer whose stored count is
    within the array, every assignment succeeds and stores the value, also
    one that is negative or larger than the number of channels. *)
Theorem ReservedChannels_set_tests_the_stored_count
    (value : Z) (m : Mixer) (cs : list (option Channel)) :
  init (world m) = true ->
  chans m = Some cs ->
  0 <= reserved m <= Z.of_nat (length cs) ->
  ReservedChannels_set value m = (set_reserved value m, Ok tt)
  /\ reserved (set_reserved value m) = value.
Proof.
  intros Hi Hc Hr. unfold ReservedChannels_set, CheckInit. rewrite Hi, Hc.
  replace (reserved m <? 0) with false by (symmetry; apply Z.ltb_ge; lia).
  replace (Z.of_nat (length cs) <? reserved m) with false
    by (symmetry; apply Z.ltb_ge; lia).
  split; reflexivity.
Qed.

(** What [AddGroup] returns and leaves. *)
Lemma AddGroup_inv (m m' : Mixer) (g : Z) (gs : list (option (list Z))) :
  groups m = Some gs ->
  AddGroup m = (m', Ok g) ->
  exists i : nat,
    g = Z.of_nat i /\ (i <= length gs)%nat
    /\ init (world m') = true
    /\ (forall j, (j < i)%nat -> gs !! j <> Some None)
    /\ ((i < length gs)%nat -> gs !! i = Some None)
    /\ exists gs', groups m' = Some gs' /\ gs' !! i = Some (Some [])
                   /\ (length gs <= length gs')%nat
                   /\ forall j, j <> i -> (j < length gs)%nat -> gs' !! j = gs !! j.
Proof.
  intros Hg. unfold AddGroup, CheckInit. rewrite Hg.
  destruct (init (world m)) eqn:Hi; [|discriminate].
  destruct (first_null gs 0) as [i|] eqn:Hf; intros [= <- <-].
  - apply first_null_spec in Hf as (Hb & Hl & Hlow).
    rewrite Nat.sub_0_r in Hl, Hlow.
    exists i. split_and!; [reflexivity | lia | exact Hi | exact Hlow | auto |].
    eexists. split_and!; [reflexivity | | |].
    + apply list_lookup_insert_eq. lia.
    + rewrite length_insert. lia.
    + intros j Hj _. apply list_lookup_insert_ne. auto.
  - exists (length gs). split_and!; [reflexivity | lia | exact Hi | | lia |].
    + intros j _. eapply first_null_none, Hf.
    + eexists. split_and!; [reflexivity | | |].
      * rewrite lookup_app_r by lia. rewrite Nat.sub_diag. reflexivity.
      * rewrite length_app. lia.
      * intros j _ Hj. apply lookup_app_l. exact Hj.
Qed.

(** C3.  [AddGroup] returns the index of the lowest free slot as it is, a
    number that is not negative, and the group operations, which read an
    id through [ToGroup], reject that number as an invalid group id. *)
Theorem AddGroup_returns_the_slot_index
    (m m' : Mixer) (g : Z) (gs : list (option (list Z))) :
  groups m = Some gs ->
  Z.of_nat (length gs) <= 2147483646 ->
  AddGroup m = (m', Ok g) ->
  0 <= g
  /\ (forall j, 0 <= j < g -> gs !! Z.to_nat j <> Some None)
  /\ GetGroup g m' = Raise (ArgumentException msg_bad_group)
  /\ GroupSize g m' = Raise (ArgumentException msg_bad_group)
  /\ snd (RemoveGroup g m') = Raise (ArgumentException msg_bad_group)
  /\ (forall channel, 0 <= channel ->
        snd (GroupChannel channel g m') = Raise (ArgumentException msg_bad_group)).
Proof.
  intros Hg Hlen Hadd.
  destruct (AddGroup_inv _ _ _ _ Hg Hadd)
    as (i & -> & Hi & Hinit & Hlow & _ & gs' & Hg' & _).
  assert (Hget : GetGroup (Z.of_nat i) m' = Raise (ArgumentException msg_bad_group)).
  { unfold GetGroup, CheckInit. rewrite Hinit.
    replace (ToGroup (Z.of_nat i) <? 0) with true; [reflexivity|].
    symmetry. apply Z.ltb_lt, ToGroup_negative. lia. }
  split; [lia|]. split.
  { intros j Hj. apply Hlow. lia. }
  split; [exact Hget|].
  unfold GroupSize, RemoveGroup, GroupChannel, CheckChannel, CheckInit.
  rewrite Hg', Hget, Hinit. split_and!; [reflexivity | reflexivity |].
  intros channel Hc.
  replace (channel <? 0) with false by (symmetry; apply Z.ltb_ge; lia).
  rewrite andb_false_r. reflexivity.
Qed.

(** The new array of [AllocateChannels] after its second loop. *)
Lemma fill_new_spec (narr : list (option Channel)) (from k : nat) :
  (from + k <= length narr)%nat ->
  fill_new narr (Z.of_nat from) (Z.of_nat (from + k))
  = take from narr
    ++ map (fun i => Some (Channel_new i)) (seqZ (Z.of_nat from) (Z.of_nat k))
    ++ drop (from + k) narr.
Proof.
  unfold fill_new.
  replace (Z.of_nat (from + k) - Z.of_nat from) with (Z.of_nat k) by lia.
  induction k as [|k IH]; intros Hk.
  - rewrite seqZ_nil by lia. rewrite Nat.add_0_r. cbn [fold_left map app].
    rewrite take_drop. reflexivity.
  - rewrite seqZ_S, fold_left_app, IH by lia. cbn [fold_left].
    rewrite map_app. cbn [map].
    replace (Z.to_nat (Z.of_nat from + Z.of_nat k)) with (from + k)%nat by lia.
    destruct (lookup_lt_is_Some_2 narr (from + k)%nat ltac:(lia)) as [x Hx].
    rewrite (drop_S _ _ _ Hx).
    rewrite app_assoc.
    replace (from + k)%nat
      with (length (take from narr
                    ++ map (fun i => Some (Channel_new i))
                         (seqZ (Z.of_nat from) (Z.of_nat k))) + 0)%nat at 1.
    2:{ rewrite length_app, length_take, length_map, length_seqZ. lia. }
    rewrite insert_app_r. cbn.
    rewrite <- !app_assoc. cbn.
    replace (from + S k)%nat with (S (from + k)) by lia. reflexivity.
Qed.

(** C2.  [AllocateChannels(n)] with [n] not below the length of the array
    succeeds and leaves an array of length [n] in which the slots of the old
    channels are [null] and the slots from the old length on hold new
    channels: the copy goes from the new array into the old one, so no old
    channel is kept. *)
Theorem AllocateChannels_grow_drops_the_old_channels
    (n : Z) (m : Mixer) (cs : list (option Channel)) :
  init (world m) = true ->
  chans m = Some cs ->
  Z.of_nat (length cs) <= n ->
  exists m',
    AllocateChannels n m = (m', Ok tt)
    /\ chans m'
       = Some (replicate (length cs) None
               ++ map (fun i => Some (Channel_new i))
                      (seqZ (Z.of_nat (length cs)) (n - Z.of_nat (length cs))))
    /\ world m' = world m
    /\ reserved m' = Z.min n (reserved m).
Proof.
  intros Hi Hc Hn. unfold AllocateChannels, CheckInit. rewrite Hi, Hc.
  replace (n <? 0) with false by (symmetry; apply Z.ltb_ge; lia).
  rewrite seqZ_nil by lia. cbn [each_chan].
  unfold new_refs.
  replace (n <? 0) with false by (symmetry; apply Z.ltb_ge; lia).
  unfold Array_Copy, Array_Copy5. cbn [Z.ltb Z.compare].
  replace (Z.of_nat (length cs) <? 0) with false by (symmetry; apply Z.ltb_ge; lia).
  rewrite length_replicate.
  replace (Z.of_nat (Z.to_nat n) - 0 <? Z.of_nat (length cs)) with false
    by (symmetry; apply Z.ltb_ge; lia).
  replace (Z.of_nat (length cs) - 0 <? Z.of_nat (length cs)) with false
    by (symmetry; apply Z.ltb_ge; lia).
  set (k := (Z.to_nat n - length cs)%nat).
  assert (Hk : n = Z.of_nat (length cs + k)) by lia.
  cbn -[fill_new seqZ Z.ltb Z.sub Z.min replicate].
  destruct (n <? reserved m) eqn:E.
  all: eexists; split; [reflexivity|]; cbn -[fill_new seqZ Z.ltb Z.sub Z.min replicate].
  all: split_and!; [| reflexivity |].
  all: try (apply Z.ltb_lt in E; lia).
  all: try (apply Z.ltb_ge in E; lia).
  all: f_equal; rewrite Hk at 2.
  all: rewrite fill_new_spec by (rewrite length_replicate; lia).
  all: rewrite take_replicate, drop_replicate.
  all: replace (Z.to_nat n - (length cs + k))%nat with 0%nat by lia.
  all: replace (length cs `min` Z.to_nat n)%nat with (length cs) by lia.
  all: cbn; rewrite app_nil_r.
  all: replace (n - Z.of_nat (length cs)) with (Z.of_nat k) by lia; reflexivity.
Qed.

End MixerFacts.

(** ** Mixer.StartPlaying *)

Section StartFacts.
Context `{GLFormat} `{GLMixer} `{Single} `{SourceState} `{Delegates}.
Variables (now : Z) (r : SourceRef) (loops0 : Z) (fade0 : Fade) (fadeMs timeoutMs : Z).

Abbreviation scan := (scan_idle now r loops0 fade0 fadeMs timeoutMs).
Abbreviation start := (Mixer_StartPlaying now r loops0 fade0 fadeMs timeoutMs).
Abbreviation bind := (bind_chan now r loops0 fade0 fadeMs timeoutMs).

Lemma get_chan_lock (cs : list (option Channel)) (i : Z) (c : Channel) :
  get_chan cs i = Ok c -> lock_chan cs i = Ok c.
Proof. unfold lock_chan. intros ->. reflexivity. Qed.

Lemma is_idle_false (c : Channel) :
  is_idle c = false -> match Status c with Stopped => False | _ => True end.
Proof. unfold is_idle. destruct (Status c); [discriminate | trivial | trivial]. Qed.

(** A pass over busy channels leaves [tried] as it was and the method
    running. *)
Lemma scan_idle_busy (idx : list Z) (tried : bool) (cs : list (option Channel))
    (m : Mixer) :
  all_busy cs idx = true -> scan idx tried cs m = (tried, None).
Proof.
  induction idx as [|i idx IH]; cbn; [reflexivity|].
  intros Hb. apply andb_true_iff in Hb as [Hi Hb].
  destruct (get_chan cs i) as [c|e]; [|discriminate].
  apply negb_true_iff, is_idle_false in Hi.
  destruct (Status c); [destruct Hi | auto | auto].
Qed.

(** A pass reaches the first idle channel and binds it. *)
Lemma scan_idle_first (busy rest : list Z) (i : Z) (c : Channel) (tried : bool)
    (cs : list (option Channel)) (m : Mixer) :
  all_busy cs busy = true ->
  get_chan cs i = Ok c ->
  is_idle c = true ->
  scan (busy ++ i :: rest) tried cs m = (true, Some (bind i c cs m)).
Proof.
  intros Hb Hc Hi. induction busy as [|j busy IH]; cbn.
  - rewrite Hc. rewrite (get_chan_lock _ _ _ Hc).
    unfold is_idle in Hi. destruct (Status c); [reflexivity | discriminate | discriminate].
  - cbn in Hb. apply andb_true_iff in Hb as [Hj Hb].
    destruct (get_chan cs j) as [cj|e]; [|discriminate].
    apply negb_true_iff, is_idle_false in Hj.
    destruct (Status cj); [destruct Hj | auto | auto].
Qed.

(** A pass never ends with [tried] newly set and the method still running:
    the second test of [Status], under the lock, repeats the first. *)
Lemma scan_idle_tried (idx : list Z) (tried : bool) (cs : list (option Channel))
    (m : Mixer) (t : bool) :
  scan idx tried cs m = (t, None) -> t = tried.
Proof.
  induction idx as [|i idx IH]; cbn.
  - intros [= <-]. reflexivity.
  - destruct (get_chan cs i) as [c|e] eqn:Hc; [|discriminate].
    rewrite (get_chan_lock _ _ _ Hc).
    destruct (Status c); [discriminate | exact IH | exact IH].
Qed.

(** C1.  Under every play policy, [Fail] included, [Mixer.StartPlaying] does
    not return when the mixer has unreserved capacity and every candidate
    channel is busy: the loop [do ... while(!tried)] sets [tried] only where
    it also binds a channel and returns, so with no idle candidate it runs
    again and again, and the [switch] that would return -1 is not reached. *)
Theorem StartPlaying_spins_when_every_candidate_is_busy
    (fuel : nat) (channel : Z) (m : Mixer) (cs : list (option Channel))
    (idx : list Z) :
  init (world m) = true ->
  chans m = Some cs ->
  reserved m <> Z.of_nat (length cs) ->
  candidates channel cs m = Ok idx ->
  all_busy cs idx = true ->
  Mixer_StartPlaying now r loops0 fade0 fadeMs timeoutMs fuel channel m = None.
Proof.
  intros Hi Hc Hr Hidx Hb. unfold Mixer_StartPlaying, CheckInit. rewrite Hi, Hc.
  apply Z.eqb_neq in Hr. rewrite Hr.
  induction fuel as [|fuel IH]; cbn; [reflexivity|].
  rewrite Hidx, (scan_idle_busy _ _ _ _ Hb). exact IH.
Qed.

End StartFacts.

(** ** The mix pass and the history of a channel *)

Section MixFacts.
Context `{GLFormat} `{GLMixer} `{Single} `{SourceState} `{Delegates} `{!SourceVirtuals}.

Lemma meta_kept_refl (w : World) : meta_kept w w.
Proof. intros r0. reflexivity. Qed.

Lemma meta_kept_trans (w1 w2 w3 : World) :
  meta_kept w1 w2 -> meta_kept w2 w3 -> meta_kept w1 w3.
Proof. intros H12 H23 r0. rewrite H23. apply H12. Qed.

Lemma put_state_static (r : SourceRef) (st : impl) (w : World) :
  init (put_state r st w) = init w /\ format (put_state r st w) = format w
  /\ ChannelFinished (put_state r st w) = ChannelFinished w
  /\ fired (put_state r st w) = fired w.
Proof. unfold put_state. destruct (sources w !! r); cbn; auto. Qed.

Lemma put_state_meta (r : SourceRef) (st : impl) (w : World) :
  meta_kept w (put_state r st w).
Proof.
  unfold put_state, meta_kept. destruct (sources w !! r) as [s|] eqn:E; [|reflexivity].
  intros r0. cbn. destruct (decide (r0 = r)) as [->|Hn].
  - rewrite lookup_insert_eq, E. reflexivity.
  - rewrite lookup_insert_ne by auto. reflexivity.
Qed.

Lemma step_ok_quiet (c : Channel) (w : World) (c' : Channel) (w' : World) :
  static_kept c w c' w' -> meta_kept w w' -> quiet c w c' w' -> step_ok c w c' w'.
Proof. unfold step_ok. auto. Qed.

Lemma finished_calls_kept (c : Channel) (w : World) (c' : Channel) (w' : World) :
  static_kept c w c' w' -> finished_calls c' w' = finished_calls c w.
Proof. intros (Hn & Hf & Hc). unfold finished_calls. rewrite Hn, Hf, Hc. reflexivity. Qed.

Lemma step_ok_after_quiet (c : Channel) (w : World) (c1 : Channel) (w1 : World)
    (c2 : Channel) (w2 : World) :
  static_kept c w c1 w1 -> meta_kept w w1 -> quiet c w c1 w1 ->
  step_ok c1 w1 c2 w2 -> step_ok c w c2 w2.
Proof.
  intros Hs Hm [Hq1 Hq2] (Hs' & Hm' & Hd).
  pose proof (finished_calls_kept _ _ _ _ Hs) as Hfc.
  destruct Hs as (A1 & A2 & A3), Hs' as (B1 & B2 & B3).
  split_and!.
  - split_and!; congruence.
  - eapply meta_kept_trans; eauto.
  - destruct Hd as [[D1 D2] | (D1 & D2 & D3)].
    + left. split; congruence.
    + right. split_and!; [congruence | exact D2 | congruence].
Qed.

Lemma StopPlaying_step (c : Channel) (w : World) :
  step_ok c w (fst (StopPlaying c w)) (snd (StopPlaying c w)).
Proof.
  unfold StopPlaying. destruct (source c) as [r|] eqn:E; cbn.
  - split_and!; [split_and!; reflexivity | intros r0; reflexivity |].
    right. split_and!; [rewrite E; eauto | reflexivity | reflexivity].
  - split_and!; [split_and!; reflexivity | apply meta_kept_refl |].
    left. split; reflexivity.
Qed.

Lemma Mix_chunk_quiet (fuel : nat) (r : SourceRef) (fmt : AudioFormat) (conv : bool)
    (vol : Z) (filters : list Filter) (c : Channel) (w : World) (stream : list Z)
    (toRead : Z) (c' : Channel) (w' : World) (stream' : list Z) (res : result Z) :
  Mix_chunk fuel r fmt conv vol filters c w stream toRead = Some (c', w', stream', res) ->
  static_kept c w c' w' /\ meta_kept w w' /\ quiet c w c' w'.
Proof.
  unfold Mix_chunk. intros Hm.
  repeat case_match; simplify_eq;
    unfold static_kept, quiet; cbn;
    repeat match goal with
           | |- context [put_state ?r ?st ?w] =>
             lazymatch goal with
             | _ : meta_kept w (put_state r st w) |- _ => fail
             | _ => pose proof (put_state_static r st w) as (_ & _ & ? & ?);
                    pose proof (put_state_meta r st w)
             end
           end;
    split_and!; first [reflexivity | assumption | apply meta_kept_refl].
Qed.

Lemma Mix_loop_step (fuel : nat) (r : SourceRef) (fmt : AudioFormat) (conv : bool)
    (vol : Z) (filters : list Filter) (c : Channel) (w : World) (stream : list Z)
    (toRead : Z) (c' : Channel) (w' : World) (stream' : list Z) (res : result unit) :
  Mix_loop fuel r fmt conv vol filters c w stream toRead = Some (c', w', stream', res) ->
  step_ok c w c' w'.
Proof.
  revert c w stream toRead.
  induction fuel as [|fuel IH]; intros c w stream toRead; cbn; [discriminate|].
  destruct (Mix_chunk fuel r fmt conv vol filters c w stream toRead)
    as [[[[c1 w1] stream1] [read|e]]|] eqn:Hchunk; [| |discriminate].
  2:{ intros [= <- <- <- <-]. apply Mix_chunk_quiet in Hchunk as (A & B & C).
      apply step_ok_quiet; assumption. }
  apply Mix_chunk_quiet in Hchunk as (A & B & C).
  destruct (wrap32 (toRead - read) <=? 0).
  { destruct (sources w1 !! r); intros [= <- <- <- <-].
    - eapply step_ok_after_quiet; eauto.
      apply step_ok_quiet; [split_and!; reflexivity | apply meta_kept_refl | split; reflexivity].
    - apply step_ok_quiet; assumption. }
  destruct (read =? 0); [|intros Hl; eapply step_ok_after_quiet; eauto].
  destruct (loops c1 =? 0) eqn:Hloops.
  { pose proof (StopPlaying_step c1 w1) as Hstop.
    destruct (StopPlaying c1 w1) as [c2 w2]. intros [= <- <- <- <-].
    eapply step_ok_after_quiet; eauto. }
  destruct (sources w1 !! r) as [s|]; [|intros [= <- <- <- <-]; apply step_ok_quiet; assumption].
  destruct (Rewind s) as [st ex].
  pose proof (put_state_static r st w1) as (_ & _ & P1 & P2).
  pose proof (put_state_meta r st w1) as P3.
  destruct ex as [e|].
  { intros [= <- <- <- <-]. eapply step_ok_after_quiet; eauto.
    apply step_ok_quiet; [split_and!; auto | assumption | split; auto]. }
  intros Hl. apply IH in Hl.
  eapply step_ok_after_quiet; eauto.
  eapply step_ok_after_quiet; [| | | exact Hl].
  - destruct (loops c1 =? Infinite); split_and!; auto.
  - assumption.
  - destruct (loops c1 =? Infinite); split; auto.
Qed.

Lemma Mix_setup_quiet (frames : Z) (rate0 : float) (fmt : AudioFormat) (c : Channel)
    (w : World) (c' : Channel) (fmt' : AudioFormat) (conv : bool) (toRead : Z) :
  Mix_setup frames rate0 fmt c w = SetupGo c' fmt' conv toRead ->
  number c' = number c /\ Finished c' = Finished c /\ source c' = source c.
Proof.
  unfold Mix_setup. intros Hs.
  repeat case_match; simplify_eq; cbn; auto.
Qed.

Lemma Mix_body_step (fuel : nat) (r : SourceRef) (s : AudioSource) (rate0 : float)
    (c : Channel) (vol : Z) (w : World) (stream : list Z) (frames : Z)
    (filters : list Filter) (c' : Channel) (w' : World) (stream' : list Z)
    (res : result unit) :
  Mix_body fuel r s rate0 c vol w stream frames filters = Some (c', w', stream', res) ->
  step_ok c w c' w'.
Proof.
  unfold Mix_body.
  destruct (if CanSeek s then Position_set s (position c) else (src_state s, None))
    as [st ex].
  pose proof (put_state_static r st w) as (_ & _ & P1 & P2).
  pose proof (put_state_meta r st w) as P3.
  assert (Hq : step_ok c w c (put_state r st w)).
  { apply step_ok_quiet; [split_and!; auto | assumption | split; auto]. }
  destruct ex as [e|]; [intros [= <- <- <- <-]; exact Hq|].
  destruct (Mix_setup frames rate0 (src_format s) c (put_state r st w))
    as [e| |c1 fmt conv toRead] eqn:Hsetup;
    [intros [= <- <- <- <-]; exact Hq | intros [= <- <- <- <-]; exact Hq |].
  apply Mix_setup_quiet in Hsetup as (S1 & S2 & S3).
  intros Hl. apply Mix_loop_step in Hl.
  eapply step_ok_after_quiet; [| | | exact Hl].
  - split_and!; auto.
  - assumption.
  - split; auto.
Qed.

Lemma Mix_step (fuel : nat) (now : Z) (c : Channel) (w : World) (stream : list Z)
    (frames : Z) (filters : list Filter) (c' : Channel) (w' : World)
    (stream' : list Z) (res : result unit) :
  Mix fuel now c w stream frames filters = Some (c', w', stream', res) ->
  step_ok c w c' w'.
Proof.
  assert (Hrefl : step_ok c w c w).
  { apply step_ok_quiet; [split_and!; reflexivity | apply meta_kept_refl | split; reflexivity]. }
  unfold Mix.
  destruct (source c) as [r|] eqn:Hsrc; [|intros [= <- <- <- <-]; exact Hrefl].
  destruct (paused c); [intros [= <- <- <- <-]; exact Hrefl|].
  destruct (sources w !! r) as [s|]; [|intros [= <- <- <- <-]; exact Hrefl].
  pose proof (StopPlaying_step c w) as Hstop.
  destruct (StopPlaying c w) as [c2 w2]. cbn [fst snd] in Hstop.
  destruct (negb (timeout c =? Infinite) && (timeout c <? Age now c));
    [intros [= <- <- <- <-]; exact Hstop|].
  destruct (Mix_fade now c (EffectiveVolume c s)) as [e| |c0 vol] eqn:Hfade;
    [intros [= <- <- <- <-]; exact Hrefl | intros [= <- <- <- <-]; exact Hstop |].
  intros Hb. apply Mix_body_step in Hb.
  eapply step_ok_after_quiet; [| | | exact Hb].
  - unfold Mix_fade in Hfade. repeat case_match; simplify_eq; split_and!; reflexivity.
  - apply meta_kept_refl.
  - unfold Mix_fade in Hfade. repeat case_match; simplify_eq; split; reflexivity.
Qed.

End MixFacts.

Section HistoryFacts.
Context `{GLFormat} `{GLMixer} `{Single} `{SourceState} `{Delegates} `{!SourceVirtuals}.

(** What [Channel.StartPlaying] does to the log of handler calls and to the
    sources, whether it throws or not. *)
Lemma StartPlaying_effect (now : Z) (r : SourceRef) (loops0 : Z) (fade0 : Fade)
    (fadeMs timeoutMs : Z) (c : Channel) (w : World) (c' : Channel) (w' : World)
    (res : result unit) :
  Channel_StartPlaying now r loops0 fade0 fadeMs timeoutMs c w = (c', w', res) ->
  static_kept c w c' w'
  /\ fired w' = fired w ++ match source c with
                           | Some _ => finished_calls c w
                           | None => []
                           end
  /\ (sources w' = sources w
      \/ exists s, sources w !! r = Some s
                   /\ (CanSeek s = true \/ playing s <= 0)
                   /\ source c' = Some r
                   /\ sources w'
                      = <[r := set_playing (wrap32 (playing s + 1)) s]> (sources w))
  /\ (res = Ok tt ->
      source c' = Some r
      /\ exists s, sources w !! r = Some s
                   /\ sources w'
                      = <[r := set_playing (wrap32 (playing s + 1)) s]> (sources w)).
Proof.
  unfold Channel_StartPlaying, StopPlaying.
  destruct (source c) as [r0|] eqn:Hsrc; cbn.
  all: destruct (sources w !! r) as [s|] eqn:Hs.
  all: try (intros [= <- <- <-]; split_and!;
            [split_and!; reflexivity | rewrite ?app_nil_r; reflexivity
             | left; reflexivity | discriminate]).
  all: destruct (negb (CanRewind s) && negb (loops0 =? 0)).
  all: try (intros [= <- <- <-]; split_and!;
            [split_and!; reflexivity | rewrite ?app_nil_r; reflexivity
             | left; reflexivity | discriminate]).
  all: destruct (negb (CanSeek s) && (0 <? playing s)) eqn:Hseek.
  all: try (intros [= <- <- <-]; split_and!;
            [split_and!; reflexivity | rewrite ?app_nil_r; reflexivity
             | left; reflexivity | discriminate]).
  all: assert (Hok : CanSeek s = true \/ playing s <= 0)
    by (apply andb_false_iff in Hseek as [Hk|Hk];
        [left; destruct (CanSeek s); [reflexivity | discriminate]
        | right; apply Z.ltb_ge; exact Hk]).
  all: intros Hres; repeat case_match; simplify_eq; cbn.
  all: split_and!;
    [split_and!; reflexivity | rewrite ?app_nil_r; reflexivity
     | right; exists s; split_and!; auto
     | intros _; split; [reflexivity | exists s; auto]].
Qed.

(** Every call on a channel keeps the channel's identity and handlers; a
    binding ends the previous binding, if there is one, and every other call
    keeps the binding or ends it. *)
Lemma run_op_effect (op : chan_op) (c : Channel) (w : World) (c' : Channel) (w' : World) :
  run_op op c w = Some (c', w') ->
  static_kept c w c' w'
  /\ match op with
     | OpStart _ _ _ _ _ _ =>
       fired w' = fired w ++ match source c with
                             | Some _ => finished_calls c w
                             | None => []
                             end
     | _ => meta_kept w w' /\ (quiet c w c' w' \/ ended c w c' w')
     end.
Proof.
  destruct op as [| | |now fadeMs|now r loops0 fade0 fadeMs timeoutMs
                  |fuel now stream frames filters]; cbn.
  - intros [= Hst]. pose proof (StopPlaying_step c w) as (A & B & C).
    unfold Stop in Hst. rewrite Hst in A, B, C. auto.
  - intros [= <- <-]. split_and!; [split_and!; reflexivity | apply meta_kept_refl |].
    left. split; reflexivity.
  - intros [= <- <-]. split_and!; [split_and!; reflexivity | apply meta_kept_refl |].
    left. split; reflexivity.
  - unfold Channel_FadeOut. intros [= <- <-].
    destruct (source c) as [r|] eqn:Hsrc; [destruct (sources w !! r)|]; cbn.
    all: split_and!; [split_and!; reflexivity | apply meta_kept_refl |].
    all: left; split; [cbn; auto | reflexivity].
  - destruct (Channel_StartPlaying now r loops0 fade0 fadeMs timeoutMs c w)
      as [[c1 w1] res] eqn:Hst. intros [= <- <-].
    apply StartPlaying_effect in Hst as (A & B & _). auto.
  - destruct (Mix fuel now c w stream frames filters) as [[[[c1 w1] s1] res]|] eqn:Hm;
      [|discriminate].
    intros [= <- <-]. apply Mix_step in Hm as (A & B & C). auto.
Qed.

Lemma run_ops_fired (ops : list chan_op) (c : Channel) (w : World) (k0 : nat)
    (c' : Channel) (w' : World) (k : nat) :
  run_ops ops c w k0 = Some (c', w', k) ->
  static_kept c w c' w'
  /\ exists n : nat,
       (n + bindings_open c' + k0 = k + bindings_open c)%nat
       /\ fired w' = fired w ++ concat (replicate n (finished_calls c w)).
Proof.
  revert c w k0. induction ops as [|op ops IH]; intros c w k0; cbn.
  - intros [= <- <- <-]. split; [split_and!; reflexivity|].
    exists 0%nat. split; [lia|]. cbn. rewrite app_nil_r. reflexivity.
  - destruct (run_op op c w) as [[c1 w1]|] eqn:Hop; [|discriminate].
    intros Hrest. apply IH in Hrest as (S1 & n1 & Hn1 & Hf1).
    apply run_op_effect in Hop as (S0 & Hop).
    pose proof (finished_calls_kept _ _ _ _ S0) as Hfc. rewrite Hfc in Hf1.
    split.
    { destruct S0 as (A1 & A2 & A3), S1 as (B1 & B2 & B3). split_and!; congruence. }
    assert (Hcases :
      (fired w1 = fired w ++ concat (replicate (bindings_open c) (finished_calls c w))
       /\ match op, source c1 with
          | OpStart _ _ _ _ _ _, Some _ => S k0
          | _, _ => k0
          end = (k0 + bindings_open c1)%nat)
      \/ (fired w1 = fired w ++ concat (replicate (bindings_open c - bindings_open c1)
                                                  (finished_calls c w))
          /\ (bindings_open c1 <= bindings_open c)%nat
          /\ match op, source c1 with
             | OpStart _ _ _ _ _ _, Some _ => S k0
             | _, _ => k0
             end = k0)).
    { unfold bindings_open.
      destruct op; try destruct Hop as (_ & [[Q1 Q2] | (E1 & E2 & E3)]);
        try (right; rewrite Q1, Q2; destruct (source c); cbn;
             rewrite app_nil_r; auto; fail);
        try (right; rewrite E2, E3; destruct E1 as [r0 ->]; cbn;
             rewrite app_nil_r; auto; fail).
      left. rewrite Hop. destruct (source c), (source c1); cbn;
        rewrite ?app_nil_r; split; auto; lia. }
    destruct Hcases as [[Hf0 Hk] | (Hf0 & Hle & Hk)]; rewrite Hk in Hn1.
    + exists (bindings_open c + n1)%nat. split; [lia|].
      rewrite Hf1, Hf0, replicate_add, concat_app, app_assoc. reflexivity.
    + exists (bindings_open c - bindings_open c1 + n1)%nat. split; [lia|].
      rewrite Hf1, Hf0, replicate_add, concat_app, app_assoc. reflexivity.
Qed.

(** C9.  A round of handler calls is the channel's [Finished] handlers
    followed by the mixer's [ChannelFinished] handlers.
    - [Stop] on a bound channel leaves it idle and adds one round to the
      log; on an idle channel it changes nothing.
    - A mix pass on a bound channel that is not paused stops the channel as
      [Stop] does, and returns the accumulator as it got it, when the
      time-out has expired, and when a fade-out has run longer than its
      duration.
    - A turn of the read loop that reads nothing while more is to be read
      stops the channel as [Stop] does when the loop count is 0; so does a
      whole mix pass, on the path with no conversion, no rate change and no
      filters, whose first read returns nothing.
    - Over every sequence of calls ([Stop], [Pause], [Resume], [FadeOut],
      [StartPlaying], [Mix]) the log grows by whole rounds only, one for
      each binding that has ended: each binding fires its round exactly
      once.
    - On an idle channel a mix pass changes nothing and returns the
      accumulator as it got it. *)
Theorem finished_handlers_fire_once_per_binding :
  (forall c w,
     finished_calls c w
     = map (fun h => CallFinished h (number c)) (Finished c)
       ++ map (fun h => CallChannelFinished h (number c)) (ChannelFinished w))
  /\ (forall c w r,
        source c = Some r ->
        Stop c w = (set_source None c, set_fired (fired w ++ finished_calls c w) w))
  /\ (forall c w, source c = None -> Stop c w = (c, w))
  /\ (forall fuel now c w r s stream frames filters,
        source c = Some r -> paused c = false -> sources w !! r = Some s ->
        timeout c <> Infinite -> timeout c < Age now c ->
        Mix fuel now c w stream frames filters = Some (Stop c w, stream, Ok tt))
  /\ (forall fuel now c w r s stream frames filters,
        source c = Some r -> paused c = false -> sources w !! r = Some s ->
        timeout c = Infinite \/ Age now c <= timeout c ->
        fade c = FadeOut -> fadeTime c < wrapu32 (now - fadeStart c) ->
        Mix fuel now c w stream frames filters = Some (Stop c w, stream, Ok tt))
  /\ (forall fuel r fmt conv vol filters c w stream toRead c1 w1 stream1,
        Mix_chunk fuel r fmt conv vol filters c w stream toRead
        = Some (c1, w1, stream1, Ok 0) ->
        0 < wrap32 (toRead - 0) ->
        loops c1 = 0 ->
        Mix_loop (S fuel) r fmt conv vol filters c w stream toRead
        = Some (Stop c1 w1, stream1, Ok tt)
        /\ source c1 = source c /\ fired w1 = fired w
        /\ finished_calls c1 w1 = finished_calls c w)
  /\ (forall fuel now c w r s stream frames st0 st stream',
        source c = Some r -> paused c = false -> sources w !! r = Some s ->
        timeout c = Infinite \/ Age now c <= timeout c ->
        fade c = FadeNone -> convert c = false -> Filters c = [] ->
        f_eq1 (EffectiveRate c s) = true ->
        (if CanSeek s then Position_set s (position c) else (src_state s, None))
        = (st0, None) ->
        ReadFrames (set_src_state st0 s) stream frames (EffectiveVolume c s)
        = (st, Ok (0, stream')) ->
        0 < frames < 2147483648 ->
        loops c = 0 ->
        Mix (S fuel) now c w stream frames []
        = Some (set_source None c,
                set_fired (fired w ++ finished_calls c w)
                          (put_state r st (put_state r st0 w)),
                stream', Ok tt))
  /\ (forall ops c w c' w' k,
        run_ops ops c w 0 = Some (c', w', k) ->
        exists n : nat,
          (n + bindings_open c' = k + bindings_open c)%nat
          /\ fired w' = fired w ++ concat (replicate n (finished_calls c w)))
  /\ (forall fuel now c w stream frames filters,
        source c = None ->
        Mix fuel now c w stream frames filters = Some (c, w, stream, Ok tt)).
Proof.
  split_and!.
  - reflexivity.
  - intros c w r Hsrc. unfold Stop, StopPlaying. rewrite Hsrc. reflexivity.
  - intros c w Hsrc. unfold Stop, StopPlaying. rewrite Hsrc. reflexivity.
  - intros fuel now c w r s stream frames filters Hsrc Hp Hs Hinf Hage.
    unfold Mix, Stop. rewrite Hsrc, Hp, Hs. cbv zeta.
    apply Z.eqb_neq in Hinf. apply Z.ltb_lt in Hage. rewrite Hinf, Hage.
    cbn [negb andb]. destruct (StopPlaying c w). reflexivity.
  - intros fuel now c w r s stream frames filters Hsrc Hp Hs Hto Hfade Hlong.
    unfold Mix, Stop. rewrite Hsrc, Hp, Hs. cbv zeta.
    replace (negb (timeout c =? Infinite) && (timeout c <? Age now c)) with false.
    2:{ symmetry. destruct Hto as [-> | Hle]; [reflexivity|].
        apply andb_false_iff. right. apply Z.ltb_ge. exact Hle. }
    unfold Mix_fade. rewrite Hfade. cbn [Fade_eqb].
    apply Z.ltb_lt in Hlong. rewrite Hlong.
    destruct (StopPlaying c w). reflexivity.
  - intros fuel r fmt conv vol filters c w stream toRead c1 w1 stream1 Hchunk Hmore Hl.
    cbn [Mix_loop]. rewrite Hchunk.
    replace (wrap32 (toRead - 0) <=? 0) with false by (symmetry; apply Z.leb_gt; exact Hmore).
    rewrite Hl. cbn [Z.eqb]. unfold Stop.
    apply Mix_chunk_quiet in Hchunk as (A & _ & B1 & B2).
    split_and!; [destruct (StopPlaying c1 w1); reflexivity | exact B1 | exact B2 |].
    apply finished_calls_kept. exact A.
  - intros fuel now c w r s stream frames st0 st stream' Hsrc Hp Hs Hto Hfade Hconv
           Hfil Hrate Hseek Hread Hfr Hl.
    unfold Mix. rewrite Hsrc, Hp, Hs. cbv zeta.
    replace (negb (timeout c =? Infinite) && (timeout c <? Age now c)) with false.
    2:{ symmetry. destruct Hto as [-> | Hle]; [reflexivity|].
        apply andb_false_iff. right. apply Z.ltb_ge. exact Hle. }
    unfold Mix_fade. rewrite Hfade. cbn [Fade_eqb].
    unfold Mix_body. rewrite Hseek.
    unfold Mix_setup. rewrite Hconv, Hrate. cbn [negb orb].
    cbn [Mix_loop]. unfold Mix_chunk.
    assert (Hs1 : sources (put_state r st0 w) !! r = Some (set_src_state st0 s)).
    { unfold put_state. rewrite Hs. cbn. apply lookup_insert_eq. }
    rewrite Hs1, Hfil, Hread.
    replace (wrap32 (frames - 0) <=? 0) with false.
    2:{ symmetry. apply Z.leb_gt. rewrite Z.sub_0_r, wrap32_id; lia. }
    cbn [Z.eqb]. rewrite Hl. cbn [Z.eqb].
    unfold StopPlaying. rewrite Hsrc.
    pose proof (put_state_static r st0 w) as (_ & _ & P1 & P2).
    pose proof (put_state_static r st (put_state r st0 w)) as (_ & _ & Q1 & Q2).
    unfold finished_calls. rewrite Q1, Q2, P1, P2. reflexivity.
  - intros ops c w c' w' k Hrun.
    apply run_ops_fired in Hrun as (_ & n & Hn & Hf).
    exists n. split; [lia | exact Hf].
  - intros fuel now c w stream frames filters Hidle. unfold Mix. rewrite Hidle.
    reflexivity.
Qed.

(** What one call does to a source of the store: its flags stay, and its
    play count stays or, when the call binds it, goes up by one. *)
Lemma run_op_source (op : chan_op) (c : Channel) (w : World) (c' : Channel) (w' : World)
    (r0 : SourceRef) (s0 : AudioSource) :
  run_op op c w = Some (c', w') ->
  sources w !! r0 = Some s0 ->
  exists s1, sources w' !! r0 = Some s1
             /\ CanSeek s1 = CanSeek s0
             /\ (playing s1 = playing s0
                 \/ playing s1 = wrap32 (playing s0 + 1)
                    /\ (CanSeek s0 = true \/ playing s0 <= 0)).
Proof.
  intros Hop Hs0.
  assert (Hmeta : meta_kept w w' ->
                  exists s1, sources w' !! r0 = Some s1
                             /\ CanSeek s1 = CanSeek s0 /\ playing s1 = playing s0).
  { intros Hm. specialize (Hm r0). rewrite Hs0 in Hm.
    destruct (sources w' !! r0) as [s1|]; [|discriminate].
    cbn in Hm. unfold src_meta in Hm. exists s1. split_and!; congruence. }
  destruct op as [| | |now fadeMs|now r loops0 fade0 fadeMs timeoutMs
                  |fuel now stream frames filters].
  1-4,6: apply run_op_effect in Hop as (_ & Hm & _);
    destruct (Hmeta Hm) as (s1 & A & B & C); exists s1; auto.
  cbn in Hop.
  destruct (Channel_StartPlaying now r loops0 fade0 fadeMs timeoutMs c w)
    as [[c1 w1] res] eqn:Hst. cbn in Hop. injection Hop as <- <-.
  apply StartPlaying_effect in Hst as (_ & _ & [Hsame | (s & Hs & Hok & _ & Hnew)] & _).
  - exists s0. rewrite Hsame. auto.
  - rewrite Hnew. destruct (decide (r0 = r)) as [->|Hne].
    + rewrite lookup_insert_eq. simplify_eq. eexists. split; [reflexivity|]. cbn. auto.
    + rewrite lookup_insert_ne by auto. exists s0. auto.
Qed.

(** C10.  A successful [StartPlaying] adds one to the source's [playing]
    count; no call, [Stop] and the mix pass included, lowers the count of
    any source or changes it otherwise; so once the count of a source that
    cannot seek is positive, every later attempt to bind it, after any
    number of calls on any channels, raises [ArgumentException]. *)
Theorem playing_only_counts_up :
  (forall now r loops0 fade0 fadeMs timeoutMs c w c' w' s,
     sources w !! r = Some s ->
     Channel_StartPlaying now r loops0 fade0 fadeMs timeoutMs c w = (c', w', Ok tt) ->
     exists s', sources w' !! r = Some s' /\ playing s' = wrap32 (playing s + 1))
  /\ (forall w w' r s,
        world_step w w' ->
        sources w !! r = Some s ->
        exists s', sources w' !! r = Some s'
                   /\ (playing s' = playing s \/ playing s' = wrap32 (playing s + 1)))
  /\ (forall w w' r s,
        rtc world_step w w' ->
        sources w !! r = Some s ->
        CanSeek s = false ->
        0 < playing s ->
        forall now loops0 fade0 fadeMs timeoutMs c,
        exists msg,
          snd (Channel_StartPlaying now r loops0 fade0 fadeMs timeoutMs c w')
          = Raise (ArgumentException msg)).
Proof.
  split_and!.
  - intros now r loops0 fade0 fadeMs timeoutMs c w c' w' s Hs Hst.
    apply StartPlaying_effect in Hst as (_ & _ & _ & Hok).
    destruct (Hok eq_refl) as (_ & s1 & Hs1 & Hnew).
    rewrite Hnew, lookup_insert_eq. simplify_eq. eexists. split; reflexivity.
  - intros w w' r s (op & c & c' & Hop) Hs.
    destruct (run_op_source _ _ _ _ _ _ _ Hop Hs) as (s1 & A & _ & [B | [B _]]);
      exists s1; auto.
  - intros w w' r s Hrtc. revert s.
    induction Hrtc as [w|w w1 w2 (op & c0 & c1 & Hop) _ IH]; intros s Hs Hseek Hpos.
    + intros now loops0 fade0 fadeMs timeoutMs c.
      unfold Channel_StartPlaying.
      pose proof (StopPlaying_sources c w) as Hw.
      destruct (StopPlaying c w) as [c2 w2]. cbn [snd] in Hw. rewrite Hw, Hs, Hseek.
      replace (0 <? playing s) with true by (symmetry; apply Z.ltb_lt; exact Hpos).
      destruct (negb (CanRewind s) && negb (loops0 =? 0)); cbn; eauto.
    + destruct (run_op_source _ _ _ _ _ _ _ Hop Hs) as (s1 & A & B & C).
      apply (IH s1 A); [congruence|].
      destruct C as [C | [_ [C | C]]]; [lia | congruence | lia].
Qed.

End HistoryFacts.

(** ** Volumes and fades *)

Section FadeFacts.
Context `{GLFormat} `{GLMixer} `{Single} `{SourceState} `{Delegates} `{!SourceVirtuals}.

Lemma EffectiveVolume_range (c : Channel) (s : AudioSource) :
  0 <= volume c <= MaxVolume ->
  0 <= src_volume s <= MaxVolume ->
  0 <= EffectiveVolume c s /\ EffectiveVolume c s <= volume c
  /\ EffectiveVolume c s <= src_volume s.
Proof.
  unfold EffectiveVolume, MaxVolume. intros Hv Hs.
  destruct (src_volume s =? 256) eqn:E.
  - apply Z.eqb_eq in E. lia.
  - rewrite wrap32_id by nia. rewrite Z.shiftr_div_pow2 by lia.
    change (2 ^ 8) with 256. Z.div_mod_to_equations. nia.
Qed.

(** The volume of a fade-out while it runs. *)
Lemma fade_out_scale (V D t : Z) :
  0 <= V <= 256 -> 0 < D < 2147483648 -> V * D <= 2147483648 -> 0 <= t <= D ->
  exists x,
    match int_div (wrap32 (wrap32 (0 - V) * wrap32 t)) (wrap32 D) with
    | Raise _ => False
    | Ok q => wrap32 (V + q) = x
    end
    /\ V * (D - t) <= x * D < V * (D - t) + D.
Proof.
  intros HV HD HVD Ht.
  rewrite (wrap32_id (0 - V)), (wrap32_id t), (wrap32_id D) by lia.
  rewrite wrap32_id by nia.
  unfold int_div, int_MinValue.
  replace (D =? 0) with false by (symmetry; apply Z.eqb_neq; lia).
  replace (D =? -1) with false by (symmetry; apply Z.eqb_neq; lia).
  rewrite andb_false_r.
  assert (Hq : -256 <= Z.quot ((0 - V) * t) D <= 0 /\
               V * (D - t) <= (V + Z.quot ((0 - V) * t) D) * D < V * (D - t) + D).
  { Z.quot_rem_to_equations. nia. }
  eexists. split; [reflexivity|]. rewrite wrap32_id by lia. lia.
Qed.

(** The volume a mix pass goes on with is the scale factor of what it
    reads: on the path with no conversion and no filter it is the volume
    argument of [ReadFrames], which mixes the frames into the accumulator. *)
Lemma Mix_chunk_applies_the_volume (fuel : nat) (r : SourceRef) (fmt : AudioFormat)
    (vol : Z) (c : Channel) (w : World) (stream : list Z) (toRead : Z)
    (s : AudioSource) :
  sources w !! r = Some s ->
  Filters c = [] ->
  Mix_chunk fuel r fmt false vol [] c w stream toRead
  = let '(st, rd) := ReadFrames s stream toRead vol in
    match rd with
    | Raise e => Some (c, put_state r st w, stream, Raise e)
    | Ok (read, stream) => Some (c, put_state r st w, stream, Ok read)
    end.
Proof.
  intros Hs Hf. unfold Mix_chunk. rewrite Hs, Hf.
  destruct (ReadFrames s stream toRead vol) as [st [[read stream']|e]]; reflexivity.
Qed.


End FadeFacts.

(** ** The properties on the sample objects *)

Section DemoFacts.
Existing Instances GLFormat_sdl GLMixer_quiet Single_binary32 SampleSource_state
  Delegates_fun Device_ok SampleSource_virtuals.

Lemma StartPlaying_spins_on_one_busy_channel :
  Mixer_StartPlaying 0 0%nat 0 FadeNone 0 Infinite 1000 FreeChannel
                     (demo_mixer [Some demo_busy]) = None.
Proof.
  apply (StartPlaying_spins_when_every_candidate_is_busy
           0 0%nat 0 FadeNone 0 Infinite 1000 FreeChannel
           (demo_mixer [Some demo_busy]) [Some demo_busy] [0]).
  - reflexivity.
  - reflexivity.
  - cbn. lia.
  - reflexivity.
  - reflexivity.
Defined.

Lemma AllocateChannels_second_call_loses_channel_0 :
  exists m',
    AllocateChannels 2 (demo_mixer [Some (Channel_new 0)]) = (m', Ok tt)
    /\ chans m' = Some [None; Some (Channel_new 1)].
Proof.
  destruct (AllocateChannels_grow_drops_the_old_channels
              2 (demo_mixer [Some (Channel_new 0)]) [Some (Channel_new 0)]
              eq_refl eq_refl ltac:(cbn; lia)) as (m' & A & B & _).
  exists m'. split; [exact A | exact B].
Defined.

Lemma AddGroup_first_id_is_rejected :
  exists m',
    AddGroup (demo_mixer []) = (m', Ok 0)
    /\ GroupSize 0 m' = Raise (ArgumentException msg_bad_group).
Proof.
  eexists. split; [reflexivity|].
  refine (proj1 (proj2 (proj2 (proj2
    (AddGroup_returns_the_slot_index (demo_mixer []) _ 0 [] eq_refl _ eq_refl))))).
  cbn. lia.
Defined.

Lemma ReservedChannels_set_5_of_0 :
  ReservedChannels_set 5 (demo_mixer []) = (set_reserved 5 (demo_mixer []), Ok tt).
Proof.
  refine (proj1 (ReservedChannels_set_tests_the_stored_count
                   5 (demo_mixer []) [] eq_refl eq_refl _)).
  cbn. lia.
Defined.

Lemma PlaybackRate_minus_one_is_stored :
  f_lt0 minus_one = true
  /\ AudioSource_set_PlaybackRate minus_one demo_sample
     = (set_src_rate minus_one demo_sample, Ok tt)
  /\ AudioSource_set_PlaybackRate f_one (set_src_rate minus_one demo_sample)
     = (set_src_rate minus_one demo_sample,
        Raise (ArgumentOutOfRangeException "PlaybackRate")).
Proof.
  split; [reflexivity|]. split.
  - apply (proj1 (PlaybackRate_setters_test_the_stored_rate
                    minus_one demo_sample demo_idle)). reflexivity.
  - apply (proj1 (proj2 (proj2 (PlaybackRate_setters_test_the_stored_rate
                    f_one (set_src_rate minus_one demo_sample) demo_idle)))).
    reflexivity.
Defined.





Lemma demo_history_fires_one_round :
  map (fun h => option_map (fun '(c', w', k) => (source c', fired w', k))
                           (run_ops h demo_idle demo_world 0))
      demo_histories
  = replicate 4 (Some (None, [CallFinished 3%nat 0; CallChannelFinished 7%nat 0], 1%nat))
  /\ Forall (fun h =>
               match run_ops h demo_idle demo_world 0 with
               | Some (c', w', k) =>
                 exists n : nat,
                   (n + bindings_open c' = k + bindings_open demo_idle)%nat
                   /\ fired w'
                      = fired demo_world
                        ++ concat (replicate n (finished_calls demo_idle demo_world))
               | None => True
               end)
            demo_histories.
Proof.
  split; [vm_compute; reflexivity|].
  unfold demo_histories.
  repeat (apply List.Forall_cons); [| | | | apply List.Forall_nil].
  all: cbv beta.
  all: match goal with
       | |- match ?x with _ => _ end =>
         destruct x as [[[c' w'] k]|] eqn:E; [|exact I]
       end.
  all: exact (proj1 (proj2 (proj2 (proj2 (proj2 (proj2 (proj2 (proj2
                finished_handlers_fire_once_per_binding))))))) _ _ _ _ _ _ E).
Defined.

Lemma demo_stream_plays_once :
  sources (snd demo_played) !! 1%nat = Some (set_playing 1 demo_stream)
  /\ exists msg,
       snd (Channel_StartPlaying 5 1%nat 0 FadeNone 0 Infinite (fst demo_stopped)
                                 (snd demo_stopped))
       = Raise (ArgumentException msg).
Proof.
  split; [reflexivity|].
  refine (proj2 (proj2 playing_only_counts_up) (snd demo_played) (snd demo_stopped)
                1%nat (set_playing 1 demo_stream) _ _ _ _
                5 0 FadeNone 0 Infinite (fst demo_stopped)).
  - apply rtc_once. exists OpStop, (fst demo_played), (fst demo_stopped).
    unfold demo_stopped. cbn [run_op].
    destruct (Stop (fst demo_played) (snd demo_played)). reflexivity.
  - reflexivity.
  - reflexivity.
  - reflexivity.
Defined.

End DemoFacts.

(** * Further properties of the code *)

(** ** Volumes *)

Section VolumeFacts.
Context `{GLFormat} `{GLMixer} `{Single} `{SourceState} `{Delegates}.

(** The [Volume] setters of [AudioSource] and of [Channel] test the value
    that is assigned: a value in [0, 256] is stored, any other value raises
    [ArgumentOutOfRangeException] and leaves the volume as it was. *)
Theorem Volume_setters_check_the_value (value : Z) (s : AudioSource) (c : Channel) :
  (0 <= value <= MaxVolume ->
     AudioSource_set_Volume value s = (set_src_volume value s, Ok tt)
     /\ Channel_set_Volume value c = (set_volume value c, Ok tt))
  /\ (value < 0 \/ MaxVolume < value ->
     AudioSource_set_Volume value s = (s, Raise (ArgumentOutOfRangeException "value"))
     /\ Channel_set_Volume value c = (c, Raise (ArgumentOutOfRangeException "value"))).
Proof.
  unfold AudioSource_set_Volume, Channel_set_Volume, CheckVolume, MaxVolume.
  split; intros Hv.
  - replace (value <? 0) with false by (symmetry; apply Z.ltb_ge; lia).
    replace (256 <? value) with false by (symmetry; apply Z.ltb_ge; lia).
    split; reflexivity.
  - assert (Hb : (value <? 0) || (256 <? value) = true).
    { apply orb_true_iff. destruct Hv; [left; apply Z.ltb_lt | right; apply Z.ltb_lt]; lia. }
    rewrite Hb. split; reflexivity.
Qed.

(** With both volumes in [0, 256] the effective volume of a channel is in
    [0, 256] too and exceeds neither the channel's volume nor the source's;
    a volume of 256 on one side gives the volume of the other side. *)
Theorem EffectiveVolume_is_the_scaled_volume (c : Channel) (s : AudioSource) :
  0 <= volume c <= MaxVolume ->
  0 <= src_volume s <= MaxVolume ->
  0 <= EffectiveVolume c s
  /\ EffectiveVolume c s <= volume c
  /\ EffectiveVolume c s <= src_volume s
  /\ EffectiveVolume c s * 256 <= volume c * src_volume s < EffectiveVolume c s * 256 + 256
  /\ (src_volume s = MaxVolume -> EffectiveVolume c s = volume c)
  /\ (volume c = MaxVolume -> EffectiveVolume c s = src_volume s).
Proof.
  intros Hv Hs. unfold EffectiveVolume, MaxVolume in *.
  destruct (src_volume s =? 256) eqn:E.
  - apply Z.eqb_eq in E. rewrite E. split_and!; lia.
  - apply Z.eqb_neq in E. rewrite wrap32_id by nia. rewrite Z.shiftr_div_pow2 by lia.
    change (2 ^ 8) with 256.
    split_and!; Z.div_mod_to_equations; nia.
Qed.

End VolumeFacts.

(** ** Admission of a source *)

Section AdmissionFacts.
Context `{GLFormat} `{GLMixer} `{Single} `{SourceState} `{Delegates}.
Variables (now : Z) (r : SourceRef) (loops0 : Z) (fade0 : Fade) (fadeMs timeoutMs : Z).

Abbreviation scan' := (scan_idle now r loops0 fade0 fadeMs timeoutMs).
Abbreviation bind' := (bind_chan now r loops0 fade0 fadeMs timeoutMs).

(** With every channel reserved, [Mixer.StartPlaying] returns -1 at once and
    changes nothing, whatever the target and the policy are. *)
Theorem StartPlaying_without_capacity_returns_minus_one
    (fuel : nat) (channel : Z) (m : Mixer) (cs : list (option Channel)) :
  init (world m) = true ->
  chans m = Some cs ->
  reserved m = Z.of_nat (length cs) ->
  Mixer_StartPlaying now r loops0 fade0 fadeMs timeoutMs fuel channel m
  = Some (m, Ok (-1)).
Proof.
  intros Hi Hc Hr. unfold Mixer_StartPlaying, CheckInit.
  rewrite Hi, Hc, Hr, Z.eqb_refl. reflexivity.
Qed.

(** When the candidates before candidate [i] are busy and channel [i] is
    idle, [Mixer.StartPlaying] binds the source to channel [i] in its first
    pass: slot [i] holds the channel as [Channel.StartPlaying] has left it,
    and the call returns [i], or passes on the exception of the binding. *)
Theorem StartPlaying_binds_the_first_idle_candidate
    (fuel : nat) (channel : Z) (m : Mixer) (cs : list (option Channel))
    (busy rest : list Z) (i : Z) (c : Channel) :
  init (world m) = true ->
  chans m = Some cs ->
  reserved m <> Z.of_nat (length cs) ->
  candidates channel cs m = Ok (busy ++ i :: rest) ->
  all_busy cs busy = true ->
  get_chan cs i = Ok c ->
  is_idle c = true ->
  let bound := Channel_StartPlaying now r loops0 fade0 fadeMs timeoutMs c (world m) in
  Mixer_StartPlaying now r loops0 fade0 fadeMs timeoutMs (S fuel) channel m
  = Some (set_world (snd (fst bound))
            (set_chans (Some (<[Z.to_nat i := Some (fst (fst bound))]> cs)) m),
          match snd bound with
          | Ok _ => Ok i
          | Raise e => Raise e
          end).
Proof.
  intros Hi Hc Hr Hidx Hb Hget Hidle bound.
  unfold Mixer_StartPlaying, CheckInit. rewrite Hi, Hc.
  apply Z.eqb_neq in Hr. rewrite Hr. cbn [try_idle]. rewrite Hidx.
  rewrite (scan_idle_first now r loops0 fade0 fadeMs timeoutMs busy rest i c false cs m
             Hb Hget Hidle).
  unfold bind_chan. fold bound. destruct bound as [[c' w'] res]. reflexivity.
Qed.

Lemma scan_idle_policy (p : PlayPolicy) (idx : list Z) (tried : bool)
    (cs : list (option Channel)) (m : Mixer) :
  scan' idx tried cs (set_playPolicy p m)
  = (fst (scan' idx tried cs m),
     option_map (fun out => (set_playPolicy p (fst out), snd out))
                (snd (scan' idx tried cs m))).
Proof.
  revert tried. induction idx as [|i idx IH]; intros tried; cbn; [reflexivity|].
  destruct (get_chan cs i) as [c|e] eqn:Hc; [|reflexivity].
  rewrite (get_chan_lock _ _ _ Hc).
  destruct (Status c); [|apply IH|apply IH].
  cbn. unfold bind_chan. change (world (set_playPolicy p m)) with (world m).
  destruct (Channel_StartPlaying now r loops0 fade0 fadeMs timeoutMs c (world m))
    as [[c' w'] res]. reflexivity.
Qed.

(** The play policy has no part in the outcome of [Mixer.StartPlaying]: the
    call does the same under every policy, the policy field apart, because
    the loop before the [switch] is left only by a [return]. *)
Theorem StartPlaying_ignores_the_play_policy
    (fuel : nat) (channel : Z) (p : PlayPolicy) (m : Mixer) :
  Mixer_StartPlaying now r loops0 fade0 fadeMs timeoutMs fuel channel
                     (set_playPolicy p m)
  = option_map (fun out => (set_playPolicy p (fst out), snd out))
               (Mixer_StartPlaying now r loops0 fade0 fadeMs timeoutMs fuel channel m).
Proof.
  unfold Mixer_StartPlaying, CheckInit. cbn [world set_playPolicy chans reserved].
  destruct (init (world m)); [|reflexivity].
  destruct (chans m) as [cs|]; [|reflexivity].
  destruct (reserved m =? Z.of_nat (length cs)); [reflexivity|].
  induction fuel as [|fuel IH]; cbn [try_idle]; [reflexivity|].
  change (candidates channel cs (set_playPolicy p m)) with (candidates channel cs m).
  destruct (candidates channel cs m) as [idx|e]; [|reflexivity].
  rewrite scan_idle_policy.
  destruct (scan' idx false cs m) as [t [out|]] eqn:E; cbn [fst snd option_map].
  - destruct t; reflexivity.
  - apply scan_idle_tried in E. subst t. exact IH.
Qed.

End AdmissionFacts.

(** ** Channel allocation and operations on all channels *)

Section AllocationFacts.
Context `{GLFormat} `{GLMixer} `{Single} `{SourceState} `{Delegates}.

Lemma get_chan_insert_eq (cs : list (option Channel)) (i : Z) (c c' : Channel) :
  get_chan cs i = Ok c -> get_chan (<[Z.to_nat i := Some c']> cs) i = Ok c'.
Proof.
  unfold get_chan. destruct (i <? 0); [discriminate|].
  destruct (cs !! Z.to_nat i) as [[c0|]|] eqn:E; try discriminate. intros _.
  rewrite list_lookup_insert_eq; [reflexivity|].
  apply lookup_lt_is_Some. eauto.
Qed.

Lemma get_chan_insert_ne (cs : list (option Channel)) (i j : Z) (c' : Channel) :
  0 <= i -> i <> j ->
  get_chan (<[Z.to_nat i := Some c']> cs) j = get_chan cs j.
Proof.
  intros Hi Hne. unfold get_chan. destruct (j <? 0) eqn:Hj; [reflexivity|].
  apply Z.ltb_ge in Hj. rewrite list_lookup_insert_ne by lia. reflexivity.
Qed.

Lemma get_chan_nonneg (cs : list (option Channel)) (i : Z) (c : Channel) :
  get_chan cs i = Ok c -> 0 <= i < Z.of_nat (length cs).
Proof.
  unfold get_chan. destruct (i <? 0) eqn:Hi; [discriminate|]. apply Z.ltb_ge in Hi.
  destruct (cs !! Z.to_nat i) as [o|] eqn:E; [|discriminate]. intros _.
  apply lookup_lt_Some in E. lia.
Qed.

(** A loop over channels keeps the length of the array, whatever it calls
    and whether it throws or not. *)
Lemma each_chan_length (f : Channel -> World -> Channel * World * result unit)
    (idx : list Z) (cs : list (option Channel)) (w : World) :
  length (fst (fst (each_chan f idx cs w))) = length cs.
Proof.
  revert cs w. induction idx as [|i idx IH]; intros cs w; cbn; [reflexivity|].
  destruct (get_chan cs i) as [c|e]; [|reflexivity].
  destruct (f c w) as [[c' w'] [u|e]]; cbn.
  - rewrite IH, length_insert. reflexivity.
  - apply length_insert.
Qed.

(** The loop that stops the channels of a list of indices, all of which
    hold a channel: it ends without an exception, the channels of the list
    are idle and every channel keeps its number. *)
Lemma each_chan_Stop (idx : list Z) (cs : list (option Channel)) (w : World) :
  (forall i, i ∈ idx -> exists c, get_chan cs i = Ok c) ->
  exists cs' w',
    each_chan (fun c w => (Stop c w, Ok tt)) idx cs w = (cs', w', Ok tt)
    /\ forall j c, get_chan cs j = Ok c ->
         exists c', get_chan cs' j = Ok c' /\ number c' = number c
                    /\ (source c = None -> source c' = None)
                    /\ (j ∈ idx -> source c' = None).
Proof.
  revert cs w. induction idx as [|i idx IH]; intros cs w Hall; cbn.
  - eexists _, _. split; [reflexivity|]. intros j c Hj. exists c.
    split_and!; auto. intros Hin. inversion Hin.
  - destruct (Hall i ltac:(left)) as [ci Hci]. rewrite Hci.
    pose proof (StopPlaying_step ci w) as ((Hnum & _) & _).
    pose proof (StopPlaying_source ci w) as Hidle.
    unfold Stop. destruct (StopPlaying ci w) as [ci' w1]. cbn [fst snd] in Hnum, Hidle.
    pose proof (get_chan_nonneg _ _ _ Hci) as Hi.
    destruct (IH (<[Z.to_nat i := Some ci']> cs) w1) as (cs' & w' & Hrun & Hpost).
    { intros k Hk. destruct (decide (i = k)) as [<-|Hne].
      - exists ci'. eapply get_chan_insert_eq, Hci.
      - rewrite get_chan_insert_ne by lia. apply Hall. right. exact Hk. }
    exists cs', w'. split; [exact Hrun|].
    intros j c Hj. destruct (decide (i = j)) as [<-|Hne].
    + destruct (Hpost i ci' (get_chan_insert_eq _ _ _ _ Hci)) as (c' & A & B & C & _).
      exists c'. rewrite Hci in Hj. injection Hj as <-.
      split_and!; [exact A | congruence | auto | auto].
    + destruct (Hpost j c) as (c' & A & B & C & D).
      { rewrite get_chan_insert_ne by lia. exact Hj. }
      exists c'. split_and!; [exact A | exact B | exact C |].
      intros Hin. apply D. inversion Hin; subst; [congruence | assumption].
Qed.

Lemma Array_Copy_empty {A} (src : list A) : Array_Copy src [] 0 = Ok [].
Proof.
  unfold Array_Copy, Array_Copy5.
  replace (Z.of_nat (length src) - 0 <? 0) with false
    by (symmetry; apply Z.ltb_ge; lia).
  reflexivity.
Qed.

(** [AllocateChannels] on an uninitialised mixer raises
    [InvalidOperationException], and with a negative count
    [ArgumentOutOfRangeException]; the mixer stays as it was.  On an empty
    array and with n >= 0 it makes the channels 0 .. n-1: each is idle, at
    full volume, and has its index as its number. *)
Theorem AllocateChannels_on_an_empty_array (n : Z) (m : Mixer) :
  (init (world m) = false ->
     AllocateChannels n m = (m, Raise (InvalidOperationException msg_not_init)))
  /\ (init (world m) = true -> n < 0 ->
      AllocateChannels n m = (m, Raise (ArgumentOutOfRangeException "numChannels")))
  /\ (init (world m) = true -> chans m = Some [] -> 0 <= n ->
      exists m',
        AllocateChannels n m = (m', Ok tt)
        /\ chans m' = Some (map (fun i => Some (Channel_new i)) (seqZ 0 n))
        /\ world m' = world m
        /\ groups m' = groups m
        /\ reserved m' = Z.min n (reserved m)
        /\ forall i, 0 <= i < n ->
             get_chan (map (fun i => Some (Channel_new i)) (seqZ 0 n)) i
             = Ok (Channel_new i)
             /\ number (Channel_new i) = i
             /\ Status (Channel_new i) = Stopped
             /\ volume (Channel_new i) = MaxVolume).
Proof.
  unfold AllocateChannels, CheckInit. split_and!.
  - intros ->. reflexivity.
  - intros -> Hn. apply Z.ltb_lt in Hn. rewrite Hn. reflexivity.
  - intros -> Hc Hn. rewrite Hc.
    replace (n <? 0) with false by (symmetry; apply Z.ltb_ge; lia).
    rewrite seqZ_nil by (cbn; lia). cbn [each_chan].
    unfold new_refs.
    replace (n <? 0) with false by (symmetry; apply Z.ltb_ge; lia).
    change (Z.of_nat (length (@nil (option Channel)))) with 0.
    rewrite Array_Copy_empty.
    cbn -[fill_new seqZ Z.ltb Z.sub Z.min replicate].
    assert (Hfill : fill_new (replicate (Z.to_nat n) None) 0 n
                    = map (fun i => Some (Channel_new i)) (seqZ 0 n)).
    { pose proof (fill_new_spec (replicate (Z.to_nat n) None) 0 (Z.to_nat n)) as Hf.
      rewrite length_replicate in Hf. specialize (Hf ltac:(lia)).
      cbn [Nat.add] in Hf. change (Z.of_nat 0) with 0 in Hf.
      rewrite Z2Nat.id in Hf by lia.
      rewrite Hf. cbn [take app]. rewrite drop_replicate, Nat.sub_diag. cbn.
      apply app_nil_r. }
    destruct (n <? reserved m) eqn:E.
    all: eexists; split; [reflexivity|];
      cbn -[fill_new seqZ Z.ltb Z.sub Z.min replicate].
    all: rewrite Hfill.
    all: split_and!; try reflexivity.
    all: try (apply Z.ltb_lt in E; lia).
    all: try (apply Z.ltb_ge in E; lia).
    all: intros i Hi; split_and!; try reflexivity.
    all: unfold get_chan.
    all: replace (i <? 0) with false by (symmetry; apply Z.ltb_ge; lia).
    all: rewrite list_lookup_fmap, (lookup_seqZ_lt 0 n (Z.to_nat i)) by lia.
    all: cbn; rewrite Z2Nat.id by lia; reflexivity.
Qed.

(** [AllocateChannels(n)] with 0 <= n below the length of the array never
    succeeds: it raises an exception and leaves the length of the array and
    the reserved count as they were.  When the slots from [n] on all hold a
    channel, those channels are stopped and the exception is the
    [ArgumentException] of [Array.Copy]. *)
Theorem AllocateChannels_never_shrinks
    (n : Z) (m : Mixer) (cs : list (option Channel)) :
  init (world m) = true ->
  chans m = Some cs ->
  0 <= n < Z.of_nat (length cs) ->
  (exists m' e cs',
     AllocateChannels n m = (m', Raise e)
     /\ chans m' = Some cs' /\ length cs' = length cs
     /\ reserved m' = reserved m /\ groups m' = groups m)
  /\ ((forall i, n <= i < Z.of_nat (length cs) -> exists c, get_chan cs i = Ok c) ->
      exists m' cs',
        AllocateChannels n m = (m', Raise (ArgumentException msg_src_short))
        /\ chans m' = Some cs'
        /\ forall i, n <= i < Z.of_nat (length cs) ->
             exists c', get_chan cs' i = Ok c' /\ source c' = None).
Proof.
  intros Hi Hc Hn. unfold AllocateChannels, CheckInit. rewrite Hi, Hc.
  replace (n <? 0) with false by (symmetry; apply Z.ltb_ge; lia).
  set (idx := seqZ n (Z.of_nat (length cs) - n)).
  set (stop := fun (c : Channel) (w : World) => (Stop c w, Ok tt)).
  pose proof (each_chan_length stop idx cs (world m)) as Hlen.
  assert (Hcopy : forall cs1 : list (option Channel),
             Array_Copy (replicate (Z.to_nat n) None) cs1 (Z.of_nat (length cs))
             = Raise (ArgumentException msg_src_short)).
  { intros cs1. unfold Array_Copy, Array_Copy5. cbn [Z.ltb Z.compare].
    replace (Z.of_nat (length cs) <? 0) with false by (symmetry; apply Z.ltb_ge; lia).
    rewrite length_replicate.
    replace (Z.of_nat (Z.to_nat n) - 0 <? Z.of_nat (length cs)) with true
      by (symmetry; apply Z.ltb_lt; lia).
    reflexivity. }
  unfold new_refs.
  replace (n <? 0) with false by (symmetry; apply Z.ltb_ge; lia).
  split.
  - destruct (each_chan stop idx cs (world m)) as [[cs1 w1] [u|e]]; cbn [fst] in Hlen.
    + rewrite Hcopy. eexists _, _, cs1. split_and!; try reflexivity. exact Hlen.
    + eexists _, _, cs1. split_and!; try reflexivity. exact Hlen.
  - intros Hall.
    destruct (each_chan_Stop idx cs (world m)) as (cs1 & w1 & Hrun & Hpost).
    { intros i Hin. apply Hall. unfold idx in Hin. apply elem_of_seqZ in Hin. lia. }
    fold stop in Hrun. rewrite Hrun, Hcopy.
    eexists _, cs1. split_and!; try reflexivity.
    intros i Hin. destruct (Hall i Hin) as [c Hc0].
    destruct (Hpost i c Hc0) as (c' & A & _ & _ & D).
    exists c'. split; [exact A|]. apply D. unfold idx. apply elem_of_seqZ. lia.
Qed.

(** [Mixer.Stop()] on an array in which every slot holds a channel ends
    without an exception and leaves every channel idle, with its number;
    the array keeps its length. *)
Theorem Mixer_Stop_stops_every_channel (m : Mixer) (cs : list (option Channel)) :
  chans m = Some cs ->
  (forall i, 0 <= i < Z.of_nat (length cs) -> exists c, get_chan cs i = Ok c) ->
  exists m' cs',
    Mixer_Stop (-1) m = (m', Ok tt)
    /\ chans m' = Some cs'
    /\ length cs' = length cs
    /\ groups m' = groups m /\ reserved m' = reserved m
    /\ forall i c, get_chan cs i = Ok c ->
         exists c', get_chan cs' i = Ok c' /\ Status c' = Stopped
                    /\ number c' = number c.
Proof.
  intros Hc Hall. unfold Mixer_Stop, on_channels. cbn [Z.eqb]. rewrite Hc.
  set (idx := seqZ 0 (Z.of_nat (length cs))).
  pose proof (each_chan_length (fun c w => (Stop c w, Ok tt)) idx cs (world m)) as Hlen.
  destruct (each_chan_Stop idx cs (world m)) as (cs1 & w1 & Hrun & Hpost).
  { intros i Hin. apply Hall. unfold idx in Hin. apply elem_of_seqZ in Hin. lia. }
  rewrite Hrun in Hlen |- *. cbn [fst] in Hlen.
  eexists _, cs1. split_and!; try reflexivity; [exact Hlen|].
  intros i c Hi. destruct (Hpost i c Hi) as (c' & A & B & _ & D).
  exists c'. split_and!; [exact A | | exact B].
  unfold Status. rewrite D; [reflexivity|].
  unfold idx. apply elem_of_seqZ. pose proof (get_chan_nonneg _ _ _ Hi). lia.
Qed.

End AllocationFacts.

(** ** Groups *)

Section GroupFacts.
Context `{GLFormat} `{GLMixer} `{Single} `{SourceState} `{Delegates}.

Lemma contains_spec (x : Z) (l : list Z) : contains x l = true <-> x ∈ l.
Proof.
  unfold contains. rewrite existsb_exists. split.
  - intros (y & Hy & Heq). apply Z.eqb_eq in Heq. subst y.
    apply list_elem_of_In. exact Hy.
  - intros Hx. exists x. split; [apply list_elem_of_In; exact Hx | apply Z.eqb_refl].
Qed.

Lemma contains_false (x : Z) (l : list Z) : contains x l = false <-> x ∉ l.
Proof.
  rewrite <- contains_spec. destruct (contains x l); split; intros; congruence.
Qed.

(** What [GetGroup] has found when it returns a list. *)
Lemma GetGroup_Ok (group : Z) (m : Mixer) (l : list Z) :
  GetGroup group m = Ok l <->
  init (world m) = true
  /\ exists gs, groups m = Some gs
                /\ 0 <= ToGroup group
                /\ gs !! Z.to_nat (ToGroup group) = Some (Some l).
Proof.
  unfold GetGroup, CheckInit. split.
  - destruct (init (world m)); [|discriminate].
    destruct (ToGroup group <? 0) eqn:Hneg; [discriminate|]. apply Z.ltb_ge in Hneg.
    destruct (groups m) as [gs|]; [|discriminate].
    destruct (Z.of_nat (length gs) <=? ToGroup group); [discriminate|].
    destruct (gs !! Z.to_nat (ToGroup group)) as [[l0|]|] eqn:E; try discriminate.
    intros [= <-]. eauto.
  - intros (-> & gs & -> & Hpos & Hl).
    replace (ToGroup group <? 0) with false by (symmetry; apply Z.ltb_ge; lia).
    apply lookup_lt_Some in Hl as Hlt.
    replace (Z.of_nat (length gs) <=? ToGroup group) with false
      by (symmetry; apply Z.leb_gt; lia).
    rewrite Hl. reflexivity.
Qed.

Lemma GetGroup_put_group (group : Z) (l l' : list Z) (m : Mixer) :
  GetGroup group m = Ok l -> GetGroup group (put_group group l' m) = Ok l'.
Proof.
  intros Hg. apply GetGroup_Ok in Hg as (Hi & gs & Hgs & Hpos & Hl).
  apply GetGroup_Ok. unfold put_group. rewrite Hgs. cbn. split; [exact Hi|].
  eexists. split; [reflexivity|]. split; [exact Hpos|].
  apply list_lookup_insert_eq. apply lookup_lt_Some in Hl. exact Hl.
Qed.

(** The id that decodes to the slot [AddGroup] has returned is accepted by
    the group operations and names a new, empty group; decoding is its own
    inverse on [int]. *)
Theorem AddGroup_slot_is_reached_through_ToGroup
    (m m' : Mixer) (g : Z) (gs : list (option (list Z))) :
  groups m = Some gs ->
  Z.of_nat (length gs) <= 2147483646 ->
  AddGroup m = (m', Ok g) ->
  ToGroup g <= -2
  /\ ToGroup (ToGroup g) = g
  /\ GetGroup (ToGroup g) m' = Ok []
  /\ GroupSize (ToGroup g) m' = Ok 0
  /\ GetGroupChannels (ToGroup g) m' = Ok [].
Proof.
  intros Hg Hlen Hadd.
  destruct (AddGroup_inv _ _ _ _ Hg Hadd)
    as (i & -> & Hi & Hinit & _ & _ & gs' & Hg' & Hnew & _).
  assert (Hinv : ToGroup (ToGroup (Z.of_nat i)) = Z.of_nat i)
    by (apply ToGroup_involutive; lia).
  assert (Hget : GetGroup (ToGroup (Z.of_nat i)) m' = Ok []).
  { apply GetGroup_Ok. split; [exact Hinit|]. exists gs'.
    rewrite Hinv, Nat2Z.id. split_and!; [exact Hg' | lia | exact Hnew]. }
  split_and!.
  - unfold ToGroup. rewrite (wrap32_id (- Z.of_nat i)) by lia.
    rewrite wrap32_id by lia. lia.
  - exact Hinv.
  - exact Hget.
  - unfold GroupSize. rewrite Hg', Hget. reflexivity.
  - unfold GetGroupChannels. rewrite Hg'. exact Hget.
Qed.

(** What [GroupChannel] does on a group that exists. *)
Lemma GroupChannel_on_a_group
    (channel group : Z) (m : Mixer) (l : list Z) :
  GetGroup group m = Ok l ->
  (channel < -1 ->
     GroupChannel channel group m = (m, Raise (ArgumentOutOfRangeException "channel")))
  /\ (-1 <= channel ->
      exists m',
        GroupChannel channel group m = (m', Ok tt)
        /\ GetGroup group m' = Ok (if contains channel l then l else l ++ [channel])
        /\ channel ∈ (if contains channel l then l else l ++ [channel])
        /\ (NoDup l -> NoDup (if contains channel l then l else l ++ [channel]))
        /\ GroupChannel channel group m' = (m', Ok tt)
        /\ chans m' = chans m /\ world m' = world m /\ reserved m' = reserved m).
Proof.
  intros Hg. pose proof Hg as Hg0.
  apply GetGroup_Ok in Hg0 as (Hi & gs & Hgs & Hpos & Hl).
  unfold GroupChannel, CheckChannel, CheckInit, FreeChannel. rewrite Hi, Hgs, Hg. split.
  - intros Hc.
    replace (channel =? -1) with false by (symmetry; apply Z.eqb_neq; lia).
    replace (channel <? 0) with true by (symmetry; apply Z.ltb_lt; lia).
    reflexivity.
  - intros Hc.
    replace (negb (channel =? -1) && (channel <? 0)) with false.
    2:{ symmetry. apply andb_false_iff.
        destruct (Z.eq_dec channel (-1)) as [->|Hne]; [left; reflexivity|].
        right. apply Z.ltb_ge. lia. }
    destruct (contains channel l) eqn:Hin.
    + exists m. rewrite Hi, Hgs, Hg, Hin.
      split_and!; auto. apply contains_spec. exact Hin.
    + exists (put_group group (l ++ [channel]) m).
      pose proof (GetGroup_put_group group l (l ++ [channel]) m Hg) as Hg'.
      assert (Hin' : contains channel (l ++ [channel]) = true).
      { apply contains_spec. apply elem_of_app. right. apply list_elem_of_singleton.
        reflexivity. }
      split_and!.
      * reflexivity.
      * exact Hg'.
      * apply contains_spec. exact Hin'.
      * intros Hnd. apply NoDup_app. split_and!; [exact Hnd | | apply NoDup_singleton].
        intros x Hx Hx'. apply list_elem_of_singleton in Hx'. subst x.
        apply contains_false in Hin. contradiction.
      * unfold put_group at 1 2. rewrite Hgs. cbn [world set_groups groups].
        rewrite Hi. fold (put_group group (l ++ [channel]) m) in *.
        unfold put_group in Hg' |- *. rewrite Hgs in Hg' |- *. rewrite Hg', Hin'.
        reflexivity.
      * unfold put_group. rewrite Hgs. reflexivity.
      * unfold put_group. rewrite Hgs. reflexivity.
      * unfold put_group. rewrite Hgs. reflexivity.
Qed.

(** [GroupChannel] on a group that exists: a channel number below -1 raises
    [ArgumentOutOfRangeException]; any other number, -1 and numbers beyond
    the array included, is added at the end of the group unless it is
    already in it, so a second call changes nothing and a group without
    repetitions stays so. *)
Theorem GroupChannel_adds_a_channel_once
    (channel group : Z) (m : Mixer) (l : list Z) :
  GetGroup group m = Ok l ->
  (channel < -1 ->
     GroupChannel channel group m = (m, Raise (ArgumentOutOfRangeException "channel")))
  /\ (-1 <= channel ->
      exists m',
        GroupChannel channel group m = (m', Ok tt)
        /\ GetGroup group m' = Ok (if contains channel l then l else l ++ [channel])
        /\ channel ∈ (if contains channel l then l else l ++ [channel])
        /\ (NoDup l -> NoDup (if contains channel l then l else l ++ [channel]))
        /\ GroupChannel channel group m' = (m', Ok tt)
        /\ chans m' = chans m /\ world m' = world m /\ reserved m' = reserved m).
Proof. apply GroupChannel_on_a_group. Qed.

Lemma remove_first_app_new (x : Z) (l : list Z) :
  x ∉ l -> remove_first x (l ++ [x]) = l.
Proof.
  induction l as [|y l IH]; intros Hx; cbn.
  - rewrite Z.eqb_refl. reflexivity.
  - apply not_elem_of_cons in Hx as [Hne Hx].
    replace (y =? x) with false by (symmetry; apply Z.eqb_neq; congruence).
    rewrite IH by exact Hx. reflexivity.
Qed.

Lemma remove_first_NoDup (x : Z) (l : list Z) : NoDup l -> x ∉ remove_first x l.
Proof.
  induction 1 as [|y l Hy Hnd IH]; cbn; [apply not_elem_of_nil|].
  destruct (y =? x) eqn:E.
  - apply Z.eqb_eq in E. subst y. exact Hy.
  - apply Z.eqb_neq in E. apply not_elem_of_cons. split; [congruence | exact IH].
Qed.

Lemma remove_first_absent (x : Z) (l : list Z) : x ∉ l -> remove_first x l = l.
Proof.
  induction l as [|y l IH]; intros Hx; cbn; [reflexivity|].
  apply not_elem_of_cons in Hx as [Hne Hx].
  replace (y =? x) with false by (symmetry; apply Z.eqb_neq; congruence).
  rewrite IH by exact Hx. reflexivity.
Qed.

(** [UngroupChannel] takes the first occurrence of the channel out of the
    group: a channel that is not in the group leaves it as it is, in a group
    without repetitions the channel is gone afterwards, and it undoes a
    [GroupChannel] that has added the channel. *)
Theorem UngroupChannel_removes_the_channel
    (channel group : Z) (m : Mixer) (l : list Z) :
  GetGroup group m = Ok l ->
  exists m',
    UngroupChannel channel group m = (m', Ok tt)
    /\ GetGroup group m' = Ok (remove_first channel l)
    /\ (channel ∉ l -> remove_first channel l = l)
    /\ (NoDup l -> channel ∉ remove_first channel l)
    /\ (channel ∉ l -> -1 <= channel ->
        exists m1 m2,
          GroupChannel channel group m = (m1, Ok tt)
          /\ UngroupChannel channel group m1 = (m2, Ok tt)
          /\ GetGroup group m2 = Ok l).
Proof.
  intros Hg. pose proof Hg as Hg0.
  apply GetGroup_Ok in Hg0 as (Hi & gs & Hgs & Hpos & Hl).
  exists (put_group group (remove_first channel l) m).
  split_and!.
  - unfold UngroupChannel. rewrite Hgs, Hg. reflexivity.
  - apply (GetGroup_put_group _ l). exact Hg.
  - apply remove_first_absent.
  - apply remove_first_NoDup.
  - intros Hout Hc.
    destruct (proj2 (GroupChannel_on_a_group channel group m l Hg) Hc)
      as (m1 & A & B & _).
    apply contains_false in Hout. rewrite Hout in B.
    exists m1, (put_group group (remove_first channel (l ++ [channel])) m1).
    split_and!; [exact A | |].
    + pose proof B as B0. apply GetGroup_Ok in B0 as (_ & gs1 & Hgs1 & _).
      unfold UngroupChannel. rewrite Hgs1, B. reflexivity.
    + rewrite <- (remove_first_app_new channel l) at 2
        by (apply contains_false; exact Hout).
      apply (GetGroup_put_group _ (l ++ [channel])). exact B.
Qed.

Lemma first_null_at_most {A} (l : list (option A)) (k j : nat) :
  l !! j = Some None -> exists i, first_null l k = Some i /\ (i <= k + j)%nat.
Proof.
  revert k j. induction l as [|[a|] l IH]; intros k j; cbn.
  - rewrite lookup_nil. discriminate.
  - destruct j as [|j]; cbn; [discriminate|]. intros Hj.
    destruct (IH (S k) j Hj) as (i & Hi & Hle). exists i. split; [exact Hi | lia].
  - intros _. exists k. split; [reflexivity | lia].
Qed.

(** [RemoveGroup] on a group that exists empties its slot: the id is
    invalid afterwards, every other id names what it named before, and the
    next [AddGroup] takes a slot that is not above the one set free. *)
Theorem RemoveGroup_frees_the_slot (group : Z) (m : Mixer) (l : list Z) :
  GetGroup group m = Ok l ->
  exists m',
    RemoveGroup group m = (m', Ok tt)
    /\ GetGroup group m' = Raise (ArgumentException msg_bad_group)
    /\ (forall g, ToGroup g <> ToGroup group -> GetGroup g m' = GetGroup g m)
    /\ (exists m'' slot, AddGroup m' = (m'', Ok slot) /\ 0 <= slot <= ToGroup group)
    /\ chans m' = chans m /\ world m' = world m.
Proof.
  intros Hg. pose proof Hg as Hg0.
  apply GetGroup_Ok in Hg0 as (Hi & gs & Hgs & Hpos & Hl).
  apply lookup_lt_Some in Hl as Hlt.
  unfold RemoveGroup. rewrite Hgs, Hg.
  eexists. split; [reflexivity|]. split_and!.
  - unfold GetGroup, CheckInit. cbn. rewrite Hi.
    replace (ToGroup group <? 0) with false by (symmetry; apply Z.ltb_ge; lia).
    rewrite length_insert.
    replace (Z.of_nat (length gs) <=? ToGroup group) with false
      by (symmetry; apply Z.leb_gt; lia).
    rewrite list_lookup_insert_eq by exact Hlt. reflexivity.
  - intros g Hne. unfold GetGroup, CheckInit. cbn. rewrite Hi, Hgs.
    destruct (ToGroup g <? 0) eqn:Hneg; [reflexivity|]. apply Z.ltb_ge in Hneg.
    rewrite length_insert, list_lookup_insert_ne by lia. reflexivity.
  - unfold AddGroup, CheckInit. cbn. rewrite Hi.
    destruct (first_null_at_most (<[Z.to_nat (ToGroup group) := None]> gs) 0
                (Z.to_nat (ToGroup group))) as (i & Hfn & Hle).
    { apply list_lookup_insert_eq. exact Hlt. }
    rewrite Hfn. eexists _, _. split; [reflexivity | lia].
  - reflexivity.
  - reflexivity.
Qed.

Lemma GroupRange_loop_ends (n : nat) :
  forall (fuel : nat) (start end_ : Z) (l : list Z),
    Z.of_nat n = end_ - start + 1 ->
    end_ < int_MaxValue -> -2147483648 <= start ->
    (n < fuel)%nat ->
    exists l',
      GroupRange_loop fuel start end_ l = Some l'
      /\ (forall x, x ∈ l' <-> x ∈ l \/ start <= x <= end_)
      /\ (NoDup l -> NoDup l')
      /\ exists more, l' = l ++ more.
Proof.
  unfold int_MaxValue.
  induction n as [|n IH]; intros fuel start end_ l Hn Hend Hstart Hfuel.
  - destruct fuel as [|fuel]; [lia|]. cbn.
    replace (start <=? end_) with false by (symmetry; apply Z.leb_gt; lia).
    exists l. split_and!; [reflexivity | | auto | exists []; symmetry; apply app_nil_r].
    intros x. split; [auto | intros [Hx|Hx]; [exact Hx | lia]].
  - destruct fuel as [|fuel]; [lia|]. cbn.
    replace (start <=? end_) with true by (symmetry; apply Z.leb_le; lia).
    rewrite wrap32_id by lia.
    destruct (IH fuel (start + 1) end_ (if contains start l then l else l ++ [start]))
      as (l' & Hrun & Hmem & Hnd & more & Hmore); [lia | lia | lia | lia |].
    exists l'. split; [exact Hrun|]. split_and!.
    + intros x. rewrite Hmem. destruct (contains start l) eqn:Hc.
      * apply contains_spec in Hc. split.
        -- intros [Hx|Hx]; [left; exact Hx | right; lia].
        -- intros [Hx|Hx]; [left; exact Hx|].
           destruct (Z.eq_dec x start) as [->|Hne]; [left; exact Hc | right; lia].
      * rewrite elem_of_app, list_elem_of_singleton. split.
        -- intros [[Hx|Hx]|Hx]; [left; exact Hx | right; lia | right; lia].
        -- intros [Hx|Hx]; [left; left; exact Hx|].
           destruct (Z.eq_dec x start) as [->|Hne]; [left; right; reflexivity | right; lia].
    + intros Hl. apply Hnd. destruct (contains start l) eqn:Hc; [exact Hl|].
      apply NoDup_app. split_and!; [exact Hl | | apply NoDup_singleton].
      intros x Hx Hx'. apply list_elem_of_singleton in Hx'. subst x.
      apply contains_false in Hc. contradiction.
    + destruct (contains start l).
      * exists more. exact Hmore.
      * exists ([start] ++ more). rewrite Hmore, app_assoc. reflexivity.
Qed.

Lemma GroupRange_loop_spins (fuel : nat) :
  forall (start : Z) (l : list Z),
    -2147483648 <= start <= int_MaxValue ->
    GroupRange_loop fuel start int_MaxValue l = None.
Proof.
  unfold int_MaxValue.
  induction fuel as [|fuel IH]; intros start l Hs; cbn; [reflexivity|].
  replace (start <=? 2147483647) with true by (symmetry; apply Z.leb_le; lia).
  apply IH. unfold wrap32. Z.div_mod_to_equations. lia.
Qed.

(** [GroupRange(start, end, group)] on a group that exists, with
    -1 <= start <= end: when [end] is below [int.MaxValue] the loop ends,
    within end - start + 2 turns, and the group then holds what it held,
    in the same order, followed by the numbers of [start, end] that were
    missing, without new repetitions; when [end] is [int.MaxValue] the loop
    does not end, because [start++] wraps around. *)
Theorem GroupRange_adds_the_range
    (fuel : nat) (start end_ group : Z) (m : Mixer) (l : list Z) :
  GetGroup group m = Ok l ->
  -1 <= start <= end_ ->
  (end_ < int_MaxValue -> end_ - start + 1 < Z.of_nat fuel ->
     exists m' l',
       GroupRange fuel start end_ group m = Some (m', Ok tt)
       /\ GetGroup group m' = Ok l'
       /\ (forall x, x ∈ l' <-> x ∈ l \/ start <= x <= end_)
       /\ (NoDup l -> NoDup l')
       /\ exists more, l' = l ++ more)
  /\ (end_ = int_MaxValue -> GroupRange fuel start end_ group m = None).
Proof.
  intros Hg Hse. pose proof Hg as Hg0.
  apply GetGroup_Ok in Hg0 as (Hi & gs & Hgs & Hpos & Hl).
  assert (Hchk : forall ch, -1 <= ch -> CheckChannel ch m = None).
  { intros ch Hch. unfold CheckChannel, CheckInit, FreeChannel. rewrite Hi.
    destruct (Z.eq_dec ch (-1)) as [->|Hne]; [reflexivity|].
    replace (ch <? 0) with false by (symmetry; apply Z.ltb_ge; lia).
    rewrite andb_false_r. reflexivity. }
  unfold GroupRange. rewrite (Hchk start), (Hchk end_) by lia.
  replace (end_ <? start) with false by (symmetry; apply Z.ltb_ge; lia).
  rewrite Hgs, Hg. split.
  - intros Hend Hfuel.
    destruct (GroupRange_loop_ends (Z.to_nat (end_ - start + 1)) fuel start end_ l)
      as (l' & Hrun & Hmem & Hnd & Hmore); [lia | exact Hend | lia | lia |].
    rewrite Hrun. exists (put_group group l' m), l'.
    split_and!; [reflexivity | | exact Hmem | exact Hnd | exact Hmore].
    apply (GetGroup_put_group _ l). exact Hg.
  - intros ->. rewrite GroupRange_loop_spins; [reflexivity|].
    unfold int_MaxValue in *. lia.
Qed.

End GroupFacts.

(** ** Conversion *)

Section ConvertFacts.
Context `{GLFormat} `{GLMixer} `{Single} `{SourceState} `{Delegates}.

(** [Shrunk] on an array longer than the length kept with it cuts the
    array to its first [Length] bytes; otherwise it returns the array as it
    is.  The length kept is not changed, and a second call returns the same
    array. *)
Theorem Shrunk_keeps_the_first_bytes (sa : SizedArray) :
  0 <= sa_Length sa ->
  let kept := if sa_Length sa <? Z.of_nat (length (sa_Array sa))
              then take (Z.to_nat (sa_Length sa)) (sa_Array sa)
              else sa_Array sa in
  Shrunk sa = (mkSizedArray kept (sa_Length sa), Ok kept)
  /\ Shrunk (mkSizedArray kept (sa_Length sa))
     = (mkSizedArray kept (sa_Length sa), Ok kept)
  /\ Z.of_nat (length kept) <= Z.of_nat (length (sa_Array sa))
  /\ (sa_Length sa <= Z.of_nat (length (sa_Array sa)) ->
      Z.of_nat (length kept) = sa_Length sa).
Proof.
  destruct sa as [arr n]. cbn [sa_Array sa_Length]. intros Hn. cbv zeta.
  assert (Hcut : n < Z.of_nat (length arr) ->
                 Shrunk (mkSizedArray arr n)
                 = (mkSizedArray (take (Z.to_nat n) arr) n, Ok (take (Z.to_nat n) arr))).
  { intros Hlt. unfold Shrunk, new_bytes, Array_Copy, Array_Copy5.
    cbn [sa_Array sa_Length].
    replace (n <? Z.of_nat (length arr)) with true by (symmetry; apply Z.ltb_lt; lia).
    replace (n <? 0) with false by (symmetry; apply Z.ltb_ge; lia).
    cbn [Z.ltb Z.compare].
    replace (Z.of_nat (length arr) - 0 <? n) with false
      by (symmetry; apply Z.ltb_ge; lia).
    rewrite length_replicate.
    replace (Z.of_nat (Z.to_nat n) - 0 <? n) with false
      by (symmetry; apply Z.ltb_ge; lia).
    cbn [Z.to_nat take drop app Z.add].
    rewrite drop_replicate, Nat.sub_diag. cbn. rewrite app_nil_r. reflexivity. }
  assert (Hkeep : forall a : list Z, Z.of_nat (length a) <= n ->
                  Shrunk (mkSizedArray a n) = (mkSizedArray a n, Ok a)).
  { intros a Hle. unfold Shrunk. cbn [sa_Array sa_Length].
    replace (n <? Z.of_nat (length a)) with false by (symmetry; apply Z.ltb_ge; lia).
    reflexivity. }
  destruct (n <? Z.of_nat (length arr)) eqn:E.
  - apply Z.ltb_lt in E. split_and!.
    + apply Hcut. exact E.
    + apply Hkeep. rewrite length_take. lia.
    + rewrite length_take. lia.
    + intros _. rewrite length_take. lia.
  - apply Z.ltb_ge in E. split_and!; [apply Hkeep; exact E | apply Hkeep; exact E | lia | lia].
Qed.

(** [Convert] between equal formats returns the array it was given, with
    the length of the whole array, whatever length was passed.  Between
    different formats, a conversion of a part of the array ([length >= 0])
    raises [NotSupportedException] when one of the formats is the mixer
    format, and a conversion of the whole array does so when both are. *)
Theorem Convert_checks_the_formats
    (fuel : nat) (w : World) (srcData : list Z) (srcFormat destFormat : AudioFormat)
    (length0 : Z) :
  (AudioFormat_Equals srcFormat destFormat = true ->
     Convert (S fuel) w srcData srcFormat destFormat length0
     = Some (Ok (mkSizedArray srcData (Z.of_nat (length srcData)))))
  /\ (AudioFormat_Equals srcFormat destFormat = false -> 0 <= length0 ->
      Format srcFormat = MixerFormat \/ Format destFormat = MixerFormat ->
      Convert (S fuel) w srcData srcFormat destFormat length0
      = Some (Raise (NotSupportedException msg_inline)))
  /\ (AudioFormat_Equals srcFormat destFormat = false -> length0 < 0 ->
      Format srcFormat = MixerFormat -> Format destFormat = MixerFormat ->
      Convert (S fuel) w srcData srcFormat destFormat length0
      = Some (Raise (NotSupportedException msg_two_mixer))).
Proof.
  cbn [Convert]. split_and!.
  - intros ->. reflexivity.
  - intros -> Hl Hm.
    replace (0 <=? length0) with true by (symmetry; apply Z.leb_le; lia).
    replace ((Format srcFormat =? MixerFormat) || (Format destFormat =? MixerFormat))
      with true; [reflexivity|].
    symmetry. apply orb_true_iff. destruct Hm as [Hm|Hm]; [left | right];
      apply Z.eqb_eq; exact Hm.
  - intros -> Hl Hs Hd.
    replace (0 <=? length0) with false by (symmetry; apply Z.leb_gt; lia).
    rewrite Hs, Hd, Z.eqb_refl. reflexivity.
Qed.

Lemma Convert_spins (fuel : nat) (w : World) (srcData : list Z)
    (srcFormat : AudioFormat) :
  init w = true ->
  Format (format w) = MixerFormat ->
  Format srcFormat <> MixerFormat ->
  Channels srcFormat <> Channels (format w)
  \/ Frequency srcFormat <> Frequency (format w) ->
  Convert fuel w srcData srcFormat (format w) (-1) = None.
Proof.
  intros Hi Hm Hs Hdiff.
  assert (Hne : AudioFormat_Equals srcFormat (format w) = false).
  { unfold AudioFormat_Equals. rewrite Hm.
    replace (Format srcFormat =? MixerFormat) with false
      by (symmetry; apply Z.eqb_neq; exact Hs).
    rewrite andb_false_r. reflexivity. }
  assert (Hd : negb (Channels srcFormat =? Channels (format w))
               || negb (Frequency srcFormat =? Frequency (format w)) = true).
  { apply orb_true_iff. destruct Hdiff as [Hc|Hf]; [left | right];
      apply negb_true_iff, Z.eqb_neq; assumption. }
  induction fuel as [|fuel IH]; cbn [Convert]; [reflexivity|].
  rewrite Hne. cbn [Z.leb Z.compare].
  replace (Format srcFormat =? MixerFormat) with false
    by (symmetry; apply Z.eqb_neq; exact Hs).
  rewrite Hm, Z.eqb_refl, Hi, Hd, IH. reflexivity.
Qed.

(** A conversion of a whole array to the mixer format never returns when
    the format of the mixer is itself a mixer format that differs from the
    source in channels or frequency: the method calls itself with the
    format of the mixer as the target, and that call is of the same kind. *)
Theorem Convert_to_the_mixer_format_can_recurse_for_ever
    (fuel : nat) (w : World) (srcData : list Z) (srcFormat destFormat : AudioFormat) :
  init w = true ->
  Format (format w) = MixerFormat ->
  Format destFormat = MixerFormat ->
  Format srcFormat <> MixerFormat ->
  Channels srcFormat <> Channels (format w)
  \/ Frequency srcFormat <> Frequency (format w) ->
  Convert fuel w srcData srcFormat destFormat (-1) = None.
Proof.
  intros Hi Hm Hd Hs Hdiff.
  assert (Hne : AudioFormat_Equals srcFormat destFormat = false).
  { unfold AudioFormat_Equals. rewrite Hd.
    replace (Format srcFormat =? MixerFormat) with false
      by (symmetry; apply Z.eqb_neq; exact Hs).
    rewrite andb_false_r. reflexivity. }
  assert (Hdb : negb (Channels srcFormat =? Channels (format w))
                || negb (Frequency srcFormat =? Frequency (format w)) = true).
  { apply orb_true_iff. destruct Hdiff as [Hc|Hf]; [left | right];
      apply negb_true_iff, Z.eqb_neq; assumption. }
  destruct fuel as [|fuel]; cbn [Convert]; [reflexivity|].
  rewrite Hne. cbn [Z.leb Z.compare].
  replace (Format srcFormat =? MixerFormat) with false
    by (symmetry; apply Z.eqb_neq; exact Hs).
  rewrite Hd, Z.eqb_refl, Hi, Hdb.
  rewrite (Convert_spins fuel w srcData srcFormat Hi Hm Hs Hdiff). reflexivity.
Qed.

(** When the format of the mixer is not a mixer format, [Convert] returns
    after at most one call of itself. *)
Theorem Convert_returns_within_two_calls
    (w : World) (srcData : list Z) (srcFormat destFormat : AudioFormat) (length0 : Z) :
  Format (format w) <> MixerFormat ->
  exists res, Convert 2 w srcData srcFormat destFormat length0 = Some res.
Proof.
  intros Hm. apply Z.eqb_neq in Hm.
  cbn [Convert].
  repeat match goal with
         | |- exists res, Some _ = Some res => eexists; reflexivity
         | |- context [Format (format w) =? MixerFormat] => rewrite Hm
         | |- context [if ?b then _ else _] => destruct b eqn:?
         | |- context [match ?x with _ => _ end] => destruct x eqn:?
         | H : (?a && ?b) = false |- _ => fail
         | _ => progress cbn [andb orb negb]
         end.
  all: try (eexists; reflexivity).
  all: repeat match goal with
              | H : (Format ?f =? MixerFormat) = true |- _ =>
                apply Z.eqb_eq in H
              end.
  all: cbn [Format andb] in *.
  all: repeat match goal with
              | H : (_ =? _) = false |- _ => apply Z.eqb_neq in H
              end.
  all: try congruence.
  all: try match goal with
           | H : (0 <=? -1) = true |- _ => discriminate H
           end.
  all: match goal with
       | H : match ?x with _ => _ end = None |- _ => destruct x; discriminate H
       end.
Qed.

End ConvertFacts.

(** ** SampleSource *)

Section SampleSourceFacts.
Context `{GLFormat} `{GLMixer} `{Single}.
Existing Instance SampleSource_state.

(** What [ReadBytes] of a [SampleSource] does. *)
Lemma SampleSource_ReadBytes_reads_what_is_left_aux
    (s : AudioSource) (buf : list Z) (n : Z) :
  src_length s = Z.of_nat (length (data (src_state s))) ->
  0 <= curPos (src_state s) <= src_length s ->
  src_length s < 2147483648 ->
  let d := data (src_state s) in
  let pos := curPos (src_state s) in
  let k := Z.min n (src_length s - pos) in
  (0 <= n -> k <= Z.of_nat (length buf) ->
     SampleSource_ReadBytes s buf n
     = (mkSampleState d (pos + k),
        Ok (k, take (Z.to_nat k) (drop (Z.to_nat pos) d) ++ drop (Z.to_nat k) buf))
     /\ 0 <= k <= n
     /\ 0 <= pos + k <= src_length s
     /\ (pos = src_length s ->
         SampleSource_ReadBytes s buf n = (src_state s, Ok (0, buf))))
  /\ (n < 0 ->
      SampleSource_ReadBytes s buf n
      = (src_state s, Raise (ArgumentOutOfRangeException "length")))
  /\ (0 <= n -> Z.of_nat (length buf) < k ->
      SampleSource_ReadBytes s buf n
      = (src_state s, Raise (ArgumentException msg_dst_short))).
Proof.
  intros Hlen Hpos Hmax d pos k.
  unfold SampleSource_ReadBytes, Array_Copy5. fold d pos.
  rewrite (wrap32_id (src_length s - pos)) by lia. fold k.
  replace (pos <? 0) with false by (symmetry; apply Z.ltb_ge; lia).
  cbn [Z.ltb Z.compare].
  fold d in Hlen. rewrite <- Hlen.
  split_and!.
  - intros Hn Hroom.
    replace (k <? 0) with false by (symmetry; apply Z.ltb_ge; lia).
    replace (src_length s - pos <? k) with false by (symmetry; apply Z.ltb_ge; lia).
    replace (Z.of_nat (length buf) - 0 <? k) with false
      by (symmetry; apply Z.ltb_ge; lia).
    rewrite wrap32_id by lia. cbn [Z.to_nat take app Z.add].
    unfold set_curPos. fold d.
    split_and!; try lia; [reflexivity |].
    intros Hend. assert (Hk : k = 0) by lia. rewrite Hk, Z.add_0_r.
    cbn [Z.to_nat take drop app]. destruct (src_state s). reflexivity.
  - intros Hn.
    replace (k <? 0) with true by (symmetry; apply Z.ltb_lt; lia). reflexivity.
  - intros Hn Hroom.
    replace (k <? 0) with false by (symmetry; apply Z.ltb_ge; lia).
    replace (src_length s - pos <? k) with false by (symmetry; apply Z.ltb_ge; lia).
    replace (Z.of_nat (length buf) - 0 <? k) with true
      by (symmetry; apply Z.ltb_lt; lia).
    reflexivity.
Qed.

(** [ReadBytes] of a [SampleSource] whose position is within its data:
    asked for [n] bytes, with room for them in the buffer, it copies the
    bytes that are left, at most [n], to the front of the buffer, moves the
    position by that number and returns it; at the end of the data it
    returns 0 and leaves the buffer alone.  A negative [n] raises
    [ArgumentOutOfRangeException], a buffer that is too short
    [ArgumentException], and the position stays. *)
Theorem SampleSource_ReadBytes_reads_what_is_left
    (s : AudioSource) (buf : list Z) (n : Z) :
  src_length s = Z.of_nat (length (data (src_state s))) ->
  0 <= curPos (src_state s) <= src_length s ->
  src_length s < 2147483648 ->
  let d := data (src_state s) in
  let pos := curPos (src_state s) in
  let k := Z.min n (src_length s - pos) in
  (0 <= n -> k <= Z.of_nat (length buf) ->
     SampleSource_ReadBytes s buf n
     = (mkSampleState d (pos + k),
        Ok (k, take (Z.to_nat k) (drop (Z.to_nat pos) d) ++ drop (Z.to_nat k) buf))
     /\ 0 <= k <= n
     /\ 0 <= pos + k <= src_length s
     /\ (pos = src_length s ->
         SampleSource_ReadBytes s buf n = (src_state s, Ok (0, buf))))
  /\ (n < 0 ->
      SampleSource_ReadBytes s buf n
      = (src_state s, Raise (ArgumentOutOfRangeException "length")))
  /\ (0 <= n -> Z.of_nat (length buf) < k ->
      SampleSource_ReadBytes s buf n
      = (src_state s, Raise (ArgumentException msg_dst_short))).
Proof. apply SampleSource_ReadBytes_reads_what_is_left_aux. Qed.

(** After [Rewind], one [ReadBytes] for the whole length returns the data
    of the source, and the next [ReadBytes] returns nothing. *)
Theorem SampleSource_Rewind_then_read_all
    (s : AudioSource) (buf buf' : list Z) (n : Z) :
  src_length s = Z.of_nat (length (data (src_state s))) ->
  src_length s < 2147483648 ->
  length buf = length (data (src_state s)) ->
  0 <= n ->
  let s1 := set_src_state (fst (SampleSource_Rewind s)) s in
  let s2 := set_src_state (fst (SampleSource_ReadBytes s1 buf (src_length s))) s in
  snd (SampleSource_Rewind s) = None
  /\ SampleSource_Position_get s1 = 0
  /\ snd (SampleSource_ReadBytes s1 buf (src_length s))
     = Ok (src_length s, data (src_state s))
  /\ SampleSource_Position_get s2 = src_length s
  /\ snd (SampleSource_ReadBytes s2 buf' n) = Ok (0, buf').
Proof.
  intros Hlen Hmax Hbuf Hn s1 s2.
  assert (Hrew : SampleSource_Rewind s = (mkSampleState (data (src_state s)) 0, None)).
  { unfold SampleSource_Rewind, SampleSource_Position_set, set_curPos.
    destruct (0 =? curPos (src_state s)) eqn:E.
    - apply Z.eqb_eq in E. destruct (src_state s) as [d p]. cbn in *. subst p.
      reflexivity.
    - cbn [Z.ltb Z.compare orb].
      replace (src_length s <? 0) with false by (symmetry; apply Z.ltb_ge; lia).
      reflexivity. }
  assert (Hs1 : s1 = set_src_state (mkSampleState (data (src_state s)) 0) s)
    by (unfold s1; rewrite Hrew; reflexivity).
  clearbody s1.
  assert (Hread : SampleSource_ReadBytes s1 buf (src_length s)
                  = (mkSampleState (data (src_state s)) (src_length s),
                     Ok (src_length s, data (src_state s)))).
  { destruct (SampleSource_ReadBytes_reads_what_is_left_aux s1 buf (src_length s))
      as (Hr & _); try (subst s1; cbn; lia).
    subst s1. cbn [set_src_state src_state src_length curPos data] in Hr.
    destruct Hr as (Hr & _); [lia | rewrite <- Hbuf in Hlen; lia |]. rewrite Hr.
    cbn [set_src_state src_state src_length curPos data].
    rewrite Z.sub_0_r, Z.min_id, Hlen, Nat2Z.id.
    change (Z.to_nat 0) with 0%nat. rewrite drop_0, firstn_all, Z.add_0_l.
    rewrite drop_ge by (rewrite Hbuf; apply Nat.le_refl).
    rewrite app_nil_r. reflexivity. }
  assert (Hs2 : s2 = set_src_state
                       (mkSampleState (data (src_state s)) (src_length s)) s)
    by (unfold s2; rewrite Hread; reflexivity).
  clearbody s2.
  rewrite Hrew, Hread. cbn [fst snd].
  split_and!; [reflexivity | subst s1; reflexivity | reflexivity
              | subst s2; reflexivity |].
  destruct (SampleSource_ReadBytes_reads_what_is_left_aux s2 buf' n)
    as (Hr & _); try (subst s2; cbn; lia).
  subst s2. cbn [set_src_state src_state src_length curPos data] in Hr.
  destruct Hr as (_ & _ & _ & Hend); [lia | lia |].
  rewrite Hend by reflexivity. reflexivity.
Qed.

End SampleSourceFacts.

(** ** Mixer.Initialize and Mixer.Deinitialize *)

Section LifecycleFacts.
Context `{GLFormat} `{GLMixer} `{Single} `{SourceState} `{Delegates} `{Device}.

(** When the device opens, [Initialize] leaves the mixer initialised with no
    channels and no groups, with the format the device reports, and with the
    number of reserved channels it had.  It compares the [ushort] the device
    reports with the requested format converted to [short]: it returns
    [true] only for a requested format below 32768 that the device reports
    with the requested frequency and channels, and [false] for every format
    with the sign bit, whatever the device reports. *)
Theorem Initialize_compares_the_format_as_short
    (frequency format0 chans0 bufferMs : Z) (m : Mixer) (code freq form chan : Z) :
  init (world m) = false ->
  SDL_Initialize = None ->
  GLMixer_Check (GLMixer_Init frequency (to_ushort format0) (to_byte chans0) bufferMs)
  = None ->
  GLMixer_GetFormat = (code, (freq, form, chan)) ->
  SDL_Check code = None ->
  0 <= form < 65536 ->
  0 <= format0 < 65536 ->
  let out := Initialize frequency format0 chans0 bufferMs m in
  init (world (fst out)) = true
  /\ chans (fst out) = Some []
  /\ groups (fst out) = Some []
  /\ format (world (fst out)) = mkAudioFormat freq form chan
  /\ reserved (fst out) = reserved m
  /\ (snd out = Ok true
      <-> freq = frequency /\ form = format0 /\ chan = to_byte chans0
          /\ format0 < 32768)
  /\ (32768 <= format0 -> snd out = Ok false).
Proof.
  intros Hinit Hsdl Hchk Hfmt Hcode Hform Hreq out. subst out.
  unfold Initialize. rewrite Hinit, Hsdl.
  cbn [set_world set_chans set_groups world chans groups].
  rewrite Hchk, Hfmt, Hcode.
  cbn [fst snd set_world set_format set_init world chans groups reserved init format].
  assert (Hs : to_short format0 = if format0 <? 32768 then format0 else format0 - 65536).
  { unfold to_short. destruct (format0 <? 32768) eqn:E.
    - apply Z.ltb_lt in E. rewrite Z.mod_small by lia. lia.
    - apply Z.ltb_ge in E.
      replace (format0 + 32768) with (format0 - 32768 + 1 * 65536) by lia.
      rewrite Z.mod_add by lia. rewrite Z.mod_small by lia. lia. }
  split_and!; try reflexivity.
  - split.
    + intros [= Hok]. apply andb_prop in Hok as [Hok Hc].
      apply andb_prop in Hok as [Hf Hfo].
      apply Z.eqb_eq in Hf, Hfo, Hc. rewrite Hs in Hfo.
      destruct (format0 <? 32768) eqn:E.
      * apply Z.ltb_lt in E. auto.
      * lia.
    + intros (-> & -> & -> & Hlt). rewrite Hs.
      replace (format0 <? 32768) with true by (symmetry; apply Z.ltb_lt; lia).
      rewrite !Z.eqb_refl. reflexivity.
  - intros Hsigned. rewrite Hs.
    replace (format0 <? 32768) with false by (symmetry; apply Z.ltb_ge; lia).
    replace (form =? format0 - 65536) with false by (symmetry; apply Z.eqb_neq; lia).
    rewrite andb_false_r. reflexivity.
Qed.

(** [Initialize] on an initialised mixer raises and changes nothing; when
    the device does not open, the exception of [GLMixer.Check] is passed on
    and the mixer is left uninitialised, without channels and groups. *)
Theorem Initialize_failures (frequency format0 chans0 bufferMs : Z) (m : Mixer) :
  (init (world m) = true ->
   Initialize frequency format0 chans0 bufferMs m
   = (m, Raise (InvalidOperationException msg_already_init)))
  /\ (forall e,
      init (world m) = false ->
      SDL_Initialize = None ->
      GLMixer_Check (GLMixer_Init frequency (to_ushort format0) (to_byte chans0) bufferMs)
      = Some e ->
      let out := Initialize frequency format0 chans0 bufferMs m in
      snd out = Raise e
      /\ init (world (fst out)) = false
      /\ chans (fst out) = None
      /\ groups (fst out) = None
      /\ CheckInit (fst out) = Some (InvalidOperationException msg_not_init)).
Proof.
  split.
  - intros Hinit. unfold Initialize. rewrite Hinit. reflexivity.
  - intros e Hinit Hsdl Hchk out. subst out.
    unfold Initialize. rewrite Hinit, Hsdl.
    cbn [set_world set_chans set_groups world chans groups].
    rewrite Hchk. unfold Deinitialize, CheckInit. cbn.
    split_and!; reflexivity.
Qed.

(** [Deinitialize] drops the channels and the groups and keeps the number
    of reserved channels; a second call changes nothing.  Afterwards the
    methods that call [CheckInit] raise [InvalidOperationException], but
    [Stop], [Pause], [Resume] and [FadeOut] do not call it: on all channels
    they raise [NullReferenceException], on a group
    [ArgumentNullException]. *)
Theorem Deinitialize_leaves_no_channels (m : Mixer) (n group now fadeMs : Z) :
  let m' := Deinitialize m in
  init (world m) = true ->
  init (world m') = false
  /\ chans m' = None
  /\ groups m' = None
  /\ reserved m' = reserved m
  /\ Deinitialize m' = m'
  /\ AllocateChannels n m' = (m', Raise (InvalidOperationException msg_not_init))
  /\ AddGroup m' = (m', Raise (InvalidOperationException msg_not_init))
  /\ Mixer_Format m' = Raise (InvalidOperationException msg_not_init)
  /\ Mixer_Stop (-1) m' = (m', Raise NullReferenceException)
  /\ Mixer_Pause (-1) m' = (m', Raise NullReferenceException)
  /\ Mixer_Resume (-1) m' = (m', Raise NullReferenceException)
  /\ Mixer_FadeOut now (-1) fadeMs m' = (m', Raise NullReferenceException)
  /\ (group <> -1 ->
      Mixer_Stop group m' = (m', Raise ArgumentNullException)
      /\ Mixer_Pause group m' = (m', Raise ArgumentNullException)
      /\ Mixer_Resume group m' = (m', Raise ArgumentNullException)
      /\ Mixer_FadeOut now group fadeMs m' = (m', Raise ArgumentNullException)).
Proof.
  intros m' Hinit. subst m'. unfold Deinitialize. rewrite Hinit.
  unfold AllocateChannels, AddGroup, Mixer_Format, Mixer_Stop, Mixer_Pause,
    Mixer_Resume, Mixer_FadeOut, on_channels, CheckInit.
  cbn [set_world set_init set_chans set_groups world chans groups init reserved].
  cbn [Z.eqb Pos.eqb].
  split_and!; try reflexivity.
  intros Hg. apply Z.eqb_neq in Hg. rewrite Hg. split_and!; reflexivity.
Qed.

End LifecycleFacts.

(** ** Fading in *)

Section FadeInFacts.
Context `{GLFormat} `{GLMixer} `{Single} `{SourceState} `{Delegates} `{!SourceVirtuals}.

(** What [Channel.StartPlaying] with [Fade.In] leaves in the channel. *)
Lemma StartPlaying_FadeIn_fields (now : Z) (r : SourceRef) (loops0 fadeMs timeoutMs : Z)
    (c : Channel) (w : World) (c1 : Channel) (w1 : World) :
  Channel_StartPlaying now r loops0 FadeIn fadeMs timeoutMs c w = (c1, w1, Ok tt) ->
  fade c1 = FadeIn /\ fadeVolume c1 = 0 /\ fadeTime c1 = fadeMs /\ fadeStart c1 = now
  /\ source c1 = Some r /\ paused c1 = false /\ timeout c1 = timeoutMs
  /\ startTime c1 = now.
Proof.
  unfold Channel_StartPlaying.
  destruct (StopPlaying c w) as [c0 w0].
  destruct (sources w0 !! r) as [s|]; [|discriminate].
  destruct (negb (CanRewind s) && negb (loops0 =? 0)); [discriminate|].
  destruct (negb (CanSeek s) && (0 <? playing s)); [discriminate|].
  cbn [init set_sources].
  destruct (negb (init w0)); [discriminate|].
  cbn [convert set_convert].
  destruct (negb (AudioFormat_Equals _ _)).
  - destruct (SetupCVT _ _); [|discriminate].
    cbn. intros [= <- <-]. cbn. split_and!; reflexivity.
  - cbn. intros [= <- <-]. cbn. split_and!; reflexivity.
Qed.

(** A channel started with [Fade.In] at [now0], seen by a mix pass at [now]
    with effective volume [vol]: while the fade runs the pass goes on with
    the volume [vol * t / fadeMs] rounded down, which is 0 at the start and
    [vol] at the end of the fade time; after the fade time it goes on with
    [vol] and the fade is over.  A fade time of 0 seen in the same tick
    raises [DivideByZeroException]. *)
Theorem fade_in_ramps_to_the_volume (now0 now : Z) (r : SourceRef)
    (loops0 fadeMs timeoutMs : Z) (c : Channel) (w : World) (c1 : Channel) (w1 : World)
    (vol : Z) :
  Channel_StartPlaying now0 r loops0 FadeIn fadeMs timeoutMs c w = (c1, w1, Ok tt) ->
  0 <= vol <= MaxVolume ->
  0 <= fadeMs < 2147483648 ->
  vol * fadeMs < 2147483648 ->
  let t := wrapu32 (now - now0) in
  (0 < fadeMs -> t <= fadeMs ->
   exists x, Mix_fade now c1 vol = FadeGo c1 x
             /\ 0 <= x <= vol
             /\ x * fadeMs <= vol * t < x * fadeMs + fadeMs
             /\ (t = 0 -> x = 0)
             /\ (t = fadeMs -> x = vol))
  /\ (fadeMs < t -> Mix_fade now c1 vol = FadeGo (set_fade FadeNone c1) vol)
  /\ (fadeMs = 0 -> t = 0 -> Mix_fade now c1 vol = FadeThrow DivideByZeroException).
Proof.
  intros Hstart Hvol HD HvD t.
  destruct (StartPlaying_FadeIn_fields _ _ _ _ _ _ _ _ _ Hstart)
    as (Hf & Hfv & Hft & Hfs & _).
  assert (Ht : 0 <= t < 4294967296) by (apply Z.mod_pos_bound; lia).
  unfold Mix_fade. rewrite Hf, Hfv, Hft, Hfs. cbn [Fade_eqb]. fold t.
  unfold MaxVolume in Hvol.
  split_and!.
  - intros Hpos Hle.
    replace (fadeMs <? t) with false by (symmetry; apply Z.ltb_ge; lia).
    rewrite Z.sub_0_r.
    rewrite (wrap32_id vol), (wrap32_id t), (wrap32_id fadeMs) by lia.
    rewrite wrap32_id by nia.
    unfold int_div, int_MinValue.
    replace (fadeMs =? 0) with false by (symmetry; apply Z.eqb_neq; lia).
    replace (fadeMs =? -1) with false by (symmetry; apply Z.eqb_neq; lia).
    rewrite andb_false_r, Z.add_0_l.
    assert (Hq : 0 <= Z.quot (vol * t) fadeMs <= vol
                 /\ Z.quot (vol * t) fadeMs * fadeMs <= vol * t
                    < Z.quot (vol * t) fadeMs * fadeMs + fadeMs).
    { Z.quot_rem_to_equations. nia. }
    exists (Z.quot (vol * t) fadeMs).
    rewrite wrap32_id by lia.
    split_and!; first [reflexivity | lia | (intros; nia)].
  - intros Hlt.
    replace (fadeMs <? t) with true by (symmetry; apply Z.ltb_lt; lia).
    reflexivity.
  - intros -> Ht0. rewrite Ht0. cbn. reflexivity.
Qed.

End FadeInFacts.

(** ** Mixer.OldestChannel *)

Section OldestFacts.
Context `{GLFormat} `{GLMixer} `{Single} `{SourceState} `{Delegates}.

Lemma Age_nonneg (now : Z) (c : Channel) : 0 <= Age now c.
Proof.
  unfold Age, wrapu32. destruct (source c); [|lia].
  apply Z.mod_pos_bound. lia.
Qed.

(** The loop of [OldestChannel]: it keeps [oi] unless a channel is older
    than [age], and then ends on the first of the oldest ones. *)
Lemma oldest_spec (now : Z) (cs : list (option Channel)) (idx : list Z) :
  forall oi age,
    (forall i, i ∈ idx -> exists c, get_chan cs i = Ok c) ->
    exists oi',
      oldest now cs idx oi age = Ok oi'
      /\ ((oi' = oi
           /\ forall i c, i ∈ idx -> get_chan cs i = Ok c -> Age now c <= age)
          \/ (oi' ∈ idx
              /\ exists c', get_chan cs oi' = Ok c'
                            /\ age < Age now c'
                            /\ forall i c, i ∈ idx -> get_chan cs i = Ok c ->
                                           Age now c <= Age now c')).
Proof.
  induction idx as [|i idx IH]; intros oi age Hall.
  - exists oi. split; [reflexivity|]. left. split; [reflexivity|].
    intros i c Hi. inversion Hi.
  - destruct (Hall i ltac:(left)) as [c Hc].
    cbn [oldest]. rewrite Hc.
    assert (Hall' : forall j, j ∈ idx -> exists c, get_chan cs j = Ok c)
      by (intros j Hj; apply Hall; right; exact Hj).
    destruct (age <? Age now c) eqn:E.
    + apply Z.ltb_lt in E.
      destruct (IH i (Age now c) Hall') as (oi' & Ho & [[-> Hle] | (Hin & c' & Hc' & Hlt & Hle)]).
      * exists i. split; [exact Ho|]. right. split; [left|].
        exists c. split_and!; [exact Hc | exact E |].
        intros j cj Hj Hcj. apply elem_of_cons in Hj as [-> | Hj].
        -- rewrite Hc in Hcj. injection Hcj as <-. lia.
        -- eapply Hle; eassumption.
      * exists oi'. split; [exact Ho|]. right. split; [right; exact Hin|].
        exists c'. split_and!; [exact Hc' | lia |].
        intros j cj Hj Hcj. apply elem_of_cons in Hj as [-> | Hj].
        -- rewrite Hc in Hcj. injection Hcj as <-. lia.
        -- eapply Hle; eassumption.
    + apply Z.ltb_ge in E.
      destruct (IH oi age Hall') as (oi' & Ho & [[-> Hle] | (Hin & c' & Hc' & Hlt & Hle)]).
      * exists oi. split; [exact Ho|]. left. split; [reflexivity|].
        intros j cj Hj Hcj. apply elem_of_cons in Hj as [-> | Hj].
        -- rewrite Hc in Hcj. injection Hcj as <-. lia.
        -- eapply Hle; eassumption.
      * exists oi'. split; [exact Ho|]. right. split; [right; exact Hin|].
        exists c'. split_and!; [exact Hc' | lia |].
        intros j cj Hj Hcj. apply elem_of_cons in Hj as [-> | Hj].
        -- rewrite Hc in Hcj. injection Hcj as <-. lia.
        -- eapply Hle; eassumption.
Qed.

(** [OldestChannel] over all channels, each slot holding a channel: it
    returns a channel whose age is positive and no less than the age of any
    channel it looks at, if there is one; if none of them has a positive
    age (none is playing, or all started in this tick) it returns the index
    it starts from, 0 or the number of reserved channels, which need not be
    a channel. *)
Theorem OldestChannel_returns_the_greatest_age (now : Z) (unreserved : bool) (m : Mixer)
    (cs : list (option Channel)) :
  init (world m) = true ->
  chans m = Some cs ->
  Forall (fun o => o <> None) cs ->
  0 <= reserved m ->
  let from := if unreserved then 0 else reserved m in
  exists oi,
    OldestChannel now (-1) unreserved m = Ok oi
    /\ ((oi = from
         /\ forall i c, from <= i -> get_chan cs i = Ok c -> Age now c = 0)
        \/ (from <= oi < Z.of_nat (length cs)
            /\ exists c', get_chan cs oi = Ok c'
                          /\ 0 < Age now c'
                          /\ forall i c, from <= i -> get_chan cs i = Ok c ->
                                         Age now c <= Age now c')).
Proof.
  intros Hinit Hcs Hall Hres from.
  assert (Hfrom : 0 <= from) by (subst from; destruct unreserved; lia).
  unfold OldestChannel, CheckInit. cbn [Z.eqb Pos.eqb]. rewrite Hinit, Hcs. fold from.
  assert (Hget : forall i, i ∈ seqZ from (Z.of_nat (length cs) - from) ->
                           exists c, get_chan cs i = Ok c).
  { intros i Hi. apply elem_of_seqZ in Hi. unfold get_chan.
    replace (i <? 0) with false by (symmetry; apply Z.ltb_ge; lia).
    destruct (cs !! Z.to_nat i) as [o|] eqn:E.
    - rewrite Forall_forall in Hall.
      destruct o as [c|]; [exists c; reflexivity|].
      exfalso. apply (Hall None); [|reflexivity].
      eapply list_elem_of_lookup_2. exact E.
    - apply lookup_ge_None in E. lia. }
  assert (Hin : forall i c, from <= i -> get_chan cs i = Ok c ->
                            i ∈ seqZ from (Z.of_nat (length cs) - from)).
  { intros i c Hi Hc. apply elem_of_seqZ. unfold get_chan in Hc.
    destruct (i <? 0) eqn:E; [discriminate|].
    destruct (cs !! Z.to_nat i) as [o|] eqn:E'; [|discriminate].
    apply lookup_lt_Some in E'. lia. }
  destruct (oldest_spec now cs _ from 0 Hget)
    as (oi & Ho & [[-> Hle] | (Hoi & c' & Hc' & Hlt & Hle)]).
  - exists from. split; [exact Ho|]. left. split; [reflexivity|].
    intros i c Hi Hc. pose proof (Age_nonneg now c).
    specialize (Hle i c (Hin i c Hi Hc) Hc). lia.
  - exists oi. split; [exact Ho|]. right.
    apply elem_of_seqZ in Hoi. split; [lia|].
    exists c'. split_and!; [exact Hc' | exact Hlt |].
    intros i c Hi Hc. apply (Hle i c (Hin i c Hi Hc) Hc).
Qed.

End OldestFacts.

(** ** The further properties on the sample objects *)

Section FurtherDemoFacts.
Existing Instances GLFormat_sdl GLMixer_quiet Single_binary32 SampleSource_state
  Delegates_fun Device_ok SampleSource_virtuals.

Lemma EffectiveVolume_of_two_halves :
  EffectiveVolume (set_volume 128 demo_idle) (set_src_volume 128 demo_sample) <= 128
  /\ EffectiveVolume (set_volume 128 demo_idle) (set_src_volume 128 demo_sample) * 256
     <= 128 * 128.
Proof.
  destruct (EffectiveVolume_is_the_scaled_volume
              (set_volume 128 demo_idle) (set_src_volume 128 demo_sample)
              ltac:(cbn; unfold MaxVolume; lia) ltac:(cbn; unfold MaxVolume; lia))
    as (_ & A & _ & B & _).
  split; [exact A | exact (proj1 B)].
Defined.

Lemma StartPlaying_with_every_channel_reserved :
  Mixer_StartPlaying 0 0%nat 0 FadeNone 0 Infinite 5 FreeChannel
                     (set_reserved 1 (demo_mixer [Some demo_idle]))
  = Some (set_reserved 1 (demo_mixer [Some demo_idle]), Ok (-1)).
Proof.
  apply (StartPlaying_without_capacity_returns_minus_one
           0 0%nat 0 FadeNone 0 Infinite 5 FreeChannel
           (set_reserved 1 (demo_mixer [Some demo_idle])) [Some demo_idle]);
    reflexivity.
Defined.

Lemma StartPlaying_takes_channel_1 :
  option_map snd (Mixer_StartPlaying 0 0%nat 0 FadeNone 0 Infinite 1 FreeChannel
                                     (demo_mixer demo_pair))
  = Some (Ok 1).
Proof.
  rewrite (StartPlaying_binds_the_first_idle_candidate
             0 0%nat 0 FadeNone 0 Infinite 0 FreeChannel
             (demo_mixer demo_pair) demo_pair [0] [] 1 demo_second
             eq_refl eq_refl ltac:(cbn; lia) eq_refl eq_refl eq_refl eq_refl).
  reflexivity.
Defined.

Lemma AllocateChannels_1_of_2_raises :
  exists m' e, AllocateChannels 1 (demo_mixer demo_pair) = (m', Raise e).
Proof.
  destruct (proj1 (AllocateChannels_never_shrinks
                     1 (demo_mixer demo_pair) demo_pair eq_refl eq_refl
                     ltac:(cbn; lia))) as (m' & e & cs' & A & _).
  exists m', e. exact A.
Defined.

Lemma Mixer_Stop_on_the_pair :
  exists m' cs',
    Mixer_Stop (-1) (demo_mixer demo_pair) = (m', Ok tt)
    /\ chans m' = Some cs'
    /\ exists c', get_chan cs' 0 = Ok c' /\ Status c' = Stopped.
Proof.
  assert (Hall : forall i, 0 <= i < Z.of_nat (length demo_pair) ->
                           exists c, get_chan demo_pair i = Ok c).
  { intros i Hi. cbn in Hi.
    assert (Hi' : i = 0 \/ i = 1) by lia.
    destruct Hi' as [-> | ->]; eexists; reflexivity. }
  destruct (Mixer_Stop_stops_every_channel (demo_mixer demo_pair) demo_pair
              eq_refl Hall) as (m' & cs' & A & B & _ & _ & _ & C).
  exists m', cs'. split; [exact A|]. split; [exact B|].
  destruct (C 0 demo_busy eq_refl) as (c' & D & E & _).
  exists c'. split; [exact D | exact E].
Defined.

Lemma AddGroup_first_group_is_minus_two :
  ToGroup (ToGroup 0) = 0
  /\ GroupSize (-2) (fst (AddGroup (demo_mixer []))) = Ok 0.
Proof.
  destruct (AddGroup_slot_is_reached_through_ToGroup
              (demo_mixer []) (fst (AddGroup (demo_mixer []))) 0 []
              eq_refl ltac:(cbn; lia) eq_refl) as (_ & A & _ & B & _).
  split; [exact A | exact B].
Defined.

Lemma GroupChannel_1_into_the_group :
  exists m',
    GroupChannel 1 (-2) demo_grouped = (m', Ok tt)
    /\ GetGroup (-2) m' = Ok [0; 1].
Proof.
  destruct (proj2 (GroupChannel_adds_a_channel_once 1 (-2) demo_grouped [0] eq_refl)
              ltac:(lia)) as (m' & A & B & _).
  exists m'. split; [exact A | exact B].
Defined.

Lemma UngroupChannel_0_from_the_group :
  exists m',
    UngroupChannel 0 (-2) demo_grouped = (m', Ok tt)
    /\ GetGroup (-2) m' = Ok [].
Proof.
  destruct (UngroupChannel_removes_the_channel 0 (-2) demo_grouped [0] eq_refl)
    as (m' & A & B & _).
  exists m'. split; [exact A | exact B].
Defined.

Lemma RemoveGroup_of_the_group :
  exists m',
    RemoveGroup (-2) demo_grouped = (m', Ok tt)
    /\ GetGroup (-2) m' = Raise (ArgumentException msg_bad_group).
Proof.
  destruct (RemoveGroup_frees_the_slot (-2) demo_grouped [0] eq_refl)
    as (m' & A & B & _).
  exists m'. split; [exact A | exact B].
Defined.

Lemma GroupRange_0_to_1 :
  (exists m' l',
     GroupRange 10 0 1 (-2) demo_grouped = Some (m', Ok tt)
     /\ GetGroup (-2) m' = Ok l'
     /\ (1 ∈ l'))
  /\ GroupRange 10 0 int_MaxValue (-2) demo_grouped = None.
Proof.
  split.
  - destruct (proj1 (GroupRange_adds_the_range 10 0 1 (-2) demo_grouped [0] eq_refl
                       ltac:(lia))
                ltac:(unfold int_MaxValue; lia) ltac:(cbn; lia))
      as (m' & l' & A & B & C & _).
    exists m', l'. split; [exact A|]. split; [exact B|].
    apply C. right. lia.
  - apply (proj2 (GroupRange_adds_the_range 10 0 int_MaxValue (-2) demo_grouped [0]
                    eq_refl ltac:(unfold int_MaxValue; lia))).
    reflexivity.
Defined.

Lemma Shrunk_four_to_two :
  Shrunk (mkSizedArray [1; 2; 3; 4] 2) = (mkSizedArray [1; 2] 2, Ok [1; 2]).
Proof.
  exact (proj1 (Shrunk_keeps_the_first_bytes (mkSizedArray [1; 2; 3; 4] 2)
                  ltac:(cbn; lia))).
Defined.

Lemma Convert_44100_to_the_accumulator_format :
  Convert 50 demo_world32 [] (mkAudioFormat 44100 32784 2)
          (mkAudioFormat 22050 32800 2) (-1) = None.
Proof.
  apply (Convert_to_the_mixer_format_can_recurse_for_ever
           50 demo_world32 [] (mkAudioFormat 44100 32784 2)
           (mkAudioFormat 22050 32800 2)).
  - reflexivity.
  - reflexivity.
  - reflexivity.
  - cbn. lia.
  - right. cbn. lia.
Defined.

Lemma Convert_in_the_demo_world_returns :
  exists res,
    Convert 2 demo_world [0; 0; 0; 0] (mkAudioFormat 44100 32784 2) demo_format 4
    = Some res.
Proof.
  apply (Convert_returns_within_two_calls
           demo_world [0; 0; 0; 0] (mkAudioFormat 44100 32784 2) demo_format 4).
  cbn. lia.
Defined.

Lemma ReadBytes_four_of_eight :
  SampleSource_ReadBytes demo_sample [9; 9; 9; 9; 9] 4
  = (mkSampleState [0; 1; 2; 3; 4; 5; 6; 7] 4, Ok (4, [0; 1; 2; 3; 9])).
Proof.
  destruct (SampleSource_ReadBytes_reads_what_is_left
              demo_sample [9; 9; 9; 9; 9] 4 eq_refl
              ltac:(cbn; lia) ltac:(cbn; lia)) as (A & _).
  destruct A as (A & _); [lia | cbn; lia |]. exact A.
Defined.

Lemma Rewind_of_the_read_sample :
  snd (SampleSource_Rewind demo_sample_read) = None
  /\ snd (SampleSource_ReadBytes
            (set_src_state (fst (SampleSource_Rewind demo_sample_read)) demo_sample_read)
            [9; 9; 9; 9; 9; 9; 9; 9] 8)
     = Ok (8, [0; 1; 2; 3; 4; 5; 6; 7]).
Proof.
  destruct (SampleSource_Rewind_then_read_all
              demo_sample_read [9; 9; 9; 9; 9; 9; 9; 9] [] 3
              eq_refl ltac:(cbn; lia) eq_refl ltac:(lia)) as (A & _ & B & _).
  split; [exact A | exact B].
Defined.

Lemma Initialize_signed_16_bit_returns_false :
  snd (Initialize 22050 32784 2 100 demo_off) = Ok false.
Proof.
  pose proof (Initialize_compares_the_format_as_short
                22050 32784 2 100 demo_off 0 22050 32784 2) as P.
  specialize (P eq_refl eq_refl eq_refl eq_refl eq_refl ltac:(lia) ltac:(lia)).
  destruct P as (_ & _ & _ & _ & _ & _ & P).
  apply P. lia.
Defined.

Lemma Deinitialize_of_the_demo_mixer :
  chans (Deinitialize (demo_mixer demo_pair)) = None
  /\ Mixer_Stop (-1) (Deinitialize (demo_mixer demo_pair))
     = (Deinitialize (demo_mixer demo_pair), Raise NullReferenceException).
Proof.
  destruct (Deinitialize_leaves_no_channels (demo_mixer demo_pair) 0 0 0 0 eq_refl)
    as (_ & A & _ & _ & _ & _ & _ & _ & B & _).
  split; [exact A | exact B].
Defined.

Lemma fade_in_half_way :
  exists x,
    Mix_fade 500 (fst demo_faded_in) 256 = FadeGo (fst demo_faded_in) x
    /\ 0 <= x <= 256
    /\ x * 1000 <= 256 * 500 < x * 1000 + 1000.
Proof.
  destruct (proj1 (fade_in_ramps_to_the_volume
                     0 500 0%nat 0 1000 Infinite demo_idle demo_world
                     (fst demo_faded_in) (snd demo_faded_in) 256
                     eq_refl ltac:(unfold MaxVolume; lia) ltac:(lia) ltac:(lia))
                ltac:(lia) ltac:(vm_compute; discriminate)) as (x & A & B & C & _).
  exists x. split; [exact A|]. split; [exact B | exact C].
Defined.

Lemma OldestChannel_of_the_pair :
  exists oi, OldestChannel 100 (-1) true (demo_mixer demo_pair) = Ok oi.
Proof.
  destruct (OldestChannel_returns_the_greatest_age
              100 true (demo_mixer demo_pair) demo_pair eq_refl eq_refl
              ltac:(repeat (constructor; [discriminate|]); constructor)
              ltac:(cbn; lia)) as (oi & A & _).
  exists oi. exact A.
Defined.

End FurtherDemoFacts.
